(** * Best V3 trade selection (hooks/v3/useBestV3Trade.ts)

    A shallow embedding of the two hooks [useBestV3TradeExactIn] and
    [useBestV3TradeExactOut].  The values the hooks obtain from their
    collaborators (active chain id, enumerated routes and their loading
    flag, the batch of quote call states) are explicit arguments; the
    memoised body of each hook is a pure function of them. *)

From Stdlib Require Import ZArith List Bool Lia Ascii.
From Stdlib Require Import HexadecimalString HexadecimalPos HexadecimalZ OrderedTypeEx.
From stdpp Require Import base option list gmap strings.

Local Open Scope Z_scope.

(** ** Data model *)

(** [enum V3TradeState] *)
Inductive V3TradeState : Type :=
| LOADING
| INVALID
| NO_ROUTE_FOUND
| VALID
| SYNCING.

(** [TradeType] of the SDK. *)
Inductive TradeType : Type :=
| EXACT_INPUT
| EXACT_OUTPUT.

(** An ethers [BigNumber] is an arbitrary-precision integer. *)
Definition BigNumber : Type := Z.

(** The call state the multicall layer reports for one quote request:
    three independent flags next to an optional decoded result. *)
Record CallState (R : Type) : Type := mkCallState {
  valid : bool;
  result : option R;
  loading : bool;
  syncing : bool;
  error : bool
}.
Arguments mkCallState {R} _ _ _ _ _.
Arguments valid {R} _.
Arguments result {R} _.
Arguments loading {R} _.
Arguments syncing {R} _.
Arguments error {R} _.

(** Decoded return value of the quoter's [quoteExactInput]. *)
Record QuoteExactInputResult : Type := mkQuoteIn { res_amountOut : BigNumber }.

(** Decoded return value of the quoter's [quoteExactOutput]. *)
Record QuoteExactOutputResult : Type := mkQuoteOut { res_amountIn : BigNumber }.

(** [CurrencyAmount<Currency>]: an asset with a raw integer quantity. *)
Record CurrencyAmount (Currency : Type) : Type := fromRawAmount {
  currency : Currency;
  quotient : Z
}.
Arguments fromRawAmount {Currency} _ _.
Arguments currency {Currency} _.
Arguments quotient {Currency} _.

(** [Trade]: what [Trade.createUncheckedTrade] packages. *)
Record Trade (Currency Route : Type) : Type := createUncheckedTrade {
  route : Route;
  tradeType : TradeType;
  inputAmount : CurrencyAmount Currency;
  outputAmount : CurrencyAmount Currency
}.
Arguments createUncheckedTrade {Currency Route} _ _ _ _.
Arguments route {Currency Route} _.
Arguments tradeType {Currency Route} _.
Arguments inputAmount {Currency Route} _.
Arguments outputAmount {Currency Route} _.

(** The object [{ state, trade }] both hooks return. *)
Record TradeComputation (Currency Route : Type) : Type := mkComputation {
  state : V3TradeState;
  trade : option (Trade Currency Route)
}.
Arguments mkComputation {Currency Route} _ _.
Arguments state {Currency Route} _.
Arguments trade {Currency Route} _.

(** ** [Array.prototype.reduce] with the element index *)

Fixpoint reduce_from {A B : Type} (f : B -> A -> nat -> B)
    (i : nat) (acc : B) (l : list A) : B :=
  match l with
  | [] => acc
  | x :: l' => reduce_from f (S i) (f acc x i) l'
  end.

Definition reduce {A B : Type} (f : B -> A -> nat -> B) (init : B) (l : list A) : B :=
  reduce_from f 0%nat init l.

(** [Array.prototype.some] *)
Definition some {A : Type} (p : A -> bool) (l : list A) : bool := existsb p l.

(** ** Exact-input selector *)

Module ExactIn.

(** The accumulator [{ bestRoute, amountOut }] of the reduction. *)
Record Best (Route : Type) : Type := mkBest {
  bestRoute : option Route;
  amountOut : option BigNumber
}.
Arguments mkBest {Route} _ _.
Arguments bestRoute {Route} _.
Arguments amountOut {Route} _.

Section WithRoutes.
Context {Route : Type}.
Variable routes : list Route.

(** The callback handed to [quotesResults.reduce]. *)
Definition step (currentBest : Best Route)
    (q : CallState QuoteExactInputResult) (i : nat) : Best Route :=
  match result q with
  | None => currentBest
  | Some res =>
      match amountOut currentBest with
      | None => mkBest (routes !! i) (Some (res_amountOut res))
      | Some cur =>
          if cur <? res_amountOut res
          then mkBest (routes !! i) (Some (res_amountOut res))
          else currentBest
      end
  end.

Definition init : Best Route := mkBest None None.

Definition best (quotesResults : list (CallState QuoteExactInputResult)) : Best Route :=
  reduce step init quotesResults.
End WithRoutes.

End ExactIn.

Definition useBestV3TradeExactIn {Currency Route : Type}
    (amountIn : option (CurrencyAmount Currency))
    (currencyOut : option Currency)
    (routes : list Route) (routesLoading : bool)
    (quotesResults : list (CallState QuoteExactInputResult))
    : TradeComputation Currency Route :=
  match amountIn, currencyOut with
  | Some amountIn, Some currencyOut =>
      if routesLoading || some loading quotesResults
      then mkComputation LOADING None
      else
        let b := ExactIn.best routes quotesResults in
        match ExactIn.bestRoute b, ExactIn.amountOut b with
        | Some bestRoute, Some amountOut =>
            let isSyncing := some syncing quotesResults in
            mkComputation
              (if isSyncing then SYNCING else VALID)
              (Some (createUncheckedTrade bestRoute EXACT_INPUT amountIn
                       (fromRawAmount currencyOut amountOut)))
        | _, _ => mkComputation NO_ROUTE_FOUND None
        end
  | _, _ => mkComputation INVALID None
  end.

(** ** Exact-output selector *)

Module ExactOut.

(** The accumulator [{ bestRoute, amountIn }] of the reduction. *)
Record Best (Route : Type) : Type := mkBest {
  bestRoute : option Route;
  amountIn : option BigNumber
}.
Arguments mkBest {Route} _ _.
Arguments bestRoute {Route} _.
Arguments amountIn {Route} _.

Section WithRoutes.
Context {Route : Type}.
Variable routes : list Route.

Definition step (currentBest : Best Route)
    (q : CallState QuoteExactOutputResult) (i : nat) : Best Route :=
  match result q with
  | None => currentBest
  | Some res =>
      match amountIn currentBest with
      | None => mkBest (routes !! i) (Some (res_amountIn res))
      | Some cur =>
          if cur >? res_amountIn res
          then mkBest (routes !! i) (Some (res_amountIn res))
          else currentBest
      end
  end.

Definition init : Best Route := mkBest None None.

Definition best (quotesResults : list (CallState QuoteExactOutputResult)) : Best Route :=
  reduce step init quotesResults.
End WithRoutes.

End ExactOut.

Definition useBestV3TradeExactOut {Currency Route : Type}
    (currencyIn : option Currency)
    (amountOut : option (CurrencyAmount Currency))
    (routes : list Route) (routesLoading : bool)
    (quotesResults : list (CallState QuoteExactOutputResult))
    : TradeComputation Currency Route :=
  match amountOut, currencyIn with
  | Some amountOut, Some currencyIn =>
      if some (fun q => negb (valid q)) quotesResults
      then mkComputation INVALID None
      else if routesLoading || some loading quotesResults
      then mkComputation LOADING None
      else
        let b := ExactOut.best routes quotesResults in
        match ExactOut.bestRoute b, ExactOut.amountIn b with
        | Some bestRoute, Some amountIn =>
            let isSyncing := some syncing quotesResults in
            mkComputation
              (if isSyncing then SYNCING else VALID)
              (Some (createUncheckedTrade bestRoute EXACT_OUTPUT
                       (fromRawAmount currencyIn amountIn) amountOut))
        | _, _ => mkComputation NO_ROUTE_FOUND None
        end
  | _, _ => mkComputation INVALID None
  end.

(** ** Quote requests *)


(** [`0x${q.toString(16)}`] *)
Definition toHexQuantity (q : Z) : string :=
  String.append "0x" (NilZero.string_of_int (Z.to_hex_int q)).

Definition DEFAULT_GAS_QUOTE : Z := 2000000.

(** The arguments of one [useSingleContractMultipleData] call: the method,
    one argument tuple per route and the listener options. *)
Record QuoteCall (Path : Type) : Type := mkQuoteCall {
  methodName : string;
  callInputs : list (Path * option string);
  gasRequired : option Z
}.
Arguments mkQuoteCall {Path} _ _ _.
Arguments methodName {Path} _.
Arguments callInputs {Path} _.
Arguments gasRequired {Path} _.

(** Modelled from the spec: the dispatcher (state/multicall/v3/hooks) is
    not part of the sources at hand.  By its contract it issues one request
    per argument tuple, index-aligned, each carrying the gas ceiling of the
    call's options. *)
Record QuoteRequest (Path : Type) : Type := mkQuoteRequest {
  req_path : Path;
  req_amount : option string;
  req_gas : option Z
}.
Arguments mkQuoteRequest {Path} _ _ _.
Arguments req_path {Path} _.
Arguments req_amount {Path} _.
Arguments req_gas {Path} _.

Definition requests {Path : Type} (c : QuoteCall Path) : list (QuoteRequest Path) :=
  map (fun inp => mkQuoteRequest (fst inp) (snd inp) (gasRequired c)) (callInputs c).

Section Quoting.
(** [ChainId.ZKEVM] comes from the SDK; its numeric value is a parameter. *)
Variable ZKEVM : Z.

Definition QUOTE_GAS_OVERRIDES : gmap Z Z := {[ ZKEVM := 100000000 ]}.

(** [chainId ? QUOTE_GAS_OVERRIDES[chainId] ?? DEFAULT_GAS_QUOTE : undefined];
    a chain id is falsy when it is undefined or zero. *)
Definition quoteGasRequired (chainId : option Z) : option Z :=
  match chainId with
  | Some c =>
      if c =? 0 then None
      else Some (default DEFAULT_GAS_QUOTE (QUOTE_GAS_OVERRIDES !! c))
  | None => None
  end.

Context {Currency Route Path : Type}.
(** [encodeRouteToPath] of v3lib/utils. *)
Variable encodeRouteToPath : Route -> bool -> Path.

Definition quoteExactInInputs (amountIn : option (CurrencyAmount Currency))
    (routes : list Route) : list (Path * option string) :=
  map (fun route =>
         (encodeRouteToPath route false,
          match amountIn with
          | Some a => Some (toHexQuantity (quotient a))
          | None => None
          end)) routes.

Definition quoteExactOutInputs (amountOut : option (CurrencyAmount Currency))
    (routes : list Route) : list (Path * option string) :=
  map (fun route =>
         (encodeRouteToPath route true,
          match amountOut with
          | Some a => Some (toHexQuantity (quotient a))
          | None => None
          end)) routes.

(** The call issued by [useBestV3TradeExactIn]. *)
Definition quoteExactInCall (chainId : option Z)
    (amountIn : option (CurrencyAmount Currency)) (routes : list Route)
    : QuoteCall Path :=
  mkQuoteCall "quoteExactInput" (quoteExactInInputs amountIn routes)
              (quoteGasRequired chainId).

(** The call issued by [useBestV3TradeExactOut]. *)
Definition quoteExactOutCall (chainId : option Z)
    (amountOut : option (CurrencyAmount Currency)) (routes : list Route)
    : QuoteCall Path :=
  mkQuoteCall "quoteExactOutput" (quoteExactOutInputs amountOut routes)
              (quoteGasRequired chainId).
End Quoting.

(** ** Path encoder *)

Module PathEncoder.

(** Modelled from the spec: v3lib/utils/encodeRouteToPath and the route
    entity are not part of the sources at hand.  A route is a start asset
    and an ordered sequence of pools, each between two assets with a fee
    tier; its path is the alternating asset/fee sequence start→end, packed
    item by item into bytes (an asset as a 20-byte address, a fee tier as
    3 bytes, most significant byte first); for exact output the item
    sequence is reversed before packing. *)
Record Pool : Type := mkPool { token0 : Z; token1 : Z; fee : Z }.
Record Route : Type := mkRoute { input : Z; pools : list Pool }.

Inductive PathItem : Type :=
| PAddress (a : Z)
| PFee (f : Z).

Definition ADDR_SIZE : nat := 20.
Definition FEE_SIZE : nat := 3.

(** The hops (fee tier, asset reached) walking the pools from an asset. *)
Fixpoint hops (inputToken : Z) (ps : list Pool) : list (Z * Z) :=
  match ps with
  | [] => []
  | p :: ps' =>
      let outputToken := if token0 p =? inputToken then token1 p else token0 p in
      (fee p, outputToken) :: hops outputToken ps'
  end.

Definition hopItems (hs : list (Z * Z)) : list PathItem :=
  flat_map (fun h => [PFee (fst h); PAddress (snd h)]) hs.

Definition pathItems (r : Route) : list PathItem :=
  PAddress (input r) :: hopItems (hops (input r) (pools r)).

(** [n] bytes of [z], most significant first. *)
Fixpoint be_bytes (n : nat) (z : Z) : list Z :=
  match n with
  | O => []
  | S n' => (z / 256 ^ Z.of_nat n') mod 256 :: be_bytes n' z
  end.

Definition be_value (bs : list Z) : Z :=
  fold_left (fun acc b => acc * 256 + b) bs 0.

Definition packItem (it : PathItem) : list Z :=
  match it with
  | PAddress a => be_bytes ADDR_SIZE a
  | PFee f => be_bytes FEE_SIZE f
  end.

Definition pack (items : list PathItem) : list Z := flat_map packItem items.

Definition encodeRouteToPath (r : Route) (exactOutput : bool) : list Z :=
  if exactOutput then pack (rev (pathItems r)) else pack (pathItems r).

(** The inverse helper: an address, then (fee, address) until the bytes
    are used up. *)
Fixpoint decodeHops (fuel : nat) (bs : list Z) : option (list PathItem) :=
  match bs with
  | [] => Some []
  | _ :: _ =>
      match fuel with
      | O => None
      | S fuel' =>
          if (length bs <? FEE_SIZE + ADDR_SIZE)%nat then None
          else
            match decodeHops fuel' (drop (FEE_SIZE + ADDR_SIZE) bs) with
            | Some rest =>
                Some (PFee (be_value (take FEE_SIZE bs))
                      :: PAddress (be_value (take ADDR_SIZE (drop FEE_SIZE bs)))
                      :: rest)
            | None => None
            end
      end
  end.

Definition decodePath (bs : list Z) : option (list PathItem) :=
  if (length bs <? ADDR_SIZE)%nat then None
  else
    match decodeHops (length bs) (drop ADDR_SIZE bs) with
    | Some rest => Some (PAddress (be_value (take ADDR_SIZE bs)) :: rest)
    | None => None
    end.

Definition itemOk (it : PathItem) : bool :=
  match it with
  | PAddress a => (0 <=? a) && (a <? 2 ^ 160)
  | PFee f => (0 <=? f) && (f <? 2 ^ 24)
  end.

(** Addresses fit 160 bits and fee tiers 24 bits. *)
Definition wfRoute (r : Route) : bool := forallb itemOk (pathItems r).

End PathEncoder.

(** ** The direction-generic selector of the specification

    This definition follows the words of the specification (one selector
    parameterised by swap direction: exact input maximises the quoted
    output, exact output minimises the quoted input, same checks in the
    same order, same tie-break).  It is what the two hooks are compared
    with; it is not a translation of either. *)

Module Generic.

Record Best (Route : Type) : Type := mkBest {
  bestRoute : option Route;
  amount : option BigNumber
}.
Arguments mkBest {Route} _ _.
Arguments bestRoute {Route} _.
Arguments amount {Route} _.

(** Is the candidate strictly better than the current best? *)
Definition better (dir : TradeType) (cur cand : BigNumber) : bool :=
  match dir with
  | EXACT_INPUT => cur <? cand
  | EXACT_OUTPUT => cand <? cur
  end.

Definition step {Route : Type} (dir : TradeType) (routes : list Route)
    (currentBest : Best Route) (q : CallState BigNumber) (i : nat) : Best Route :=
  match result q with
  | None => currentBest
  | Some cand =>
      match amount currentBest with
      | None => mkBest (routes !! i) (Some cand)
      | Some cur =>
          if better dir cur cand then mkBest (routes !! i) (Some cand)
          else currentBest
      end
  end.

Definition packageTrade {Currency Route : Type} (dir : TradeType) (r : Route)
    (fixedAmount quoted : CurrencyAmount Currency) : Trade Currency Route :=
  match dir with
  | EXACT_INPUT => createUncheckedTrade r EXACT_INPUT fixedAmount quoted
  | EXACT_OUTPUT => createUncheckedTrade r EXACT_OUTPUT quoted fixedAmount
  end.

Definition selectBestTrade {Currency Route : Type} (dir : TradeType)
    (fixedAmount : option (CurrencyAmount Currency))
    (counterAsset : option Currency)
    (routes : list Route) (routesLoading : bool)
    (results : list (CallState BigNumber)) : TradeComputation Currency Route :=
  match fixedAmount, counterAsset with
  | Some fixedAmount, Some counterAsset =>
      if routesLoading || some loading results
      then mkComputation LOADING None
      else
        let b := reduce (step dir routes) (mkBest None None) results in
        match bestRoute b, amount b with
        | Some r, Some a =>
            mkComputation
              (if some syncing results then SYNCING else VALID)
              (Some (packageTrade dir r fixedAmount (fromRawAmount counterAsset a)))
        | _, _ => mkComputation NO_ROUTE_FOUND None
        end
  | _, _ => mkComputation INVALID None
  end.

(** A call state seen through the amount its result carries. *)
Definition view {R : Type} (amt : R -> BigNumber) (q : CallState R) : CallState BigNumber :=
  mkCallState (valid q) (amt <$> result q) (loading q) (syncing q) (error q).

End Generic.

(** ** Vocabulary of the statements *)

(** The quote at index [j] is present and carries amount [x]. *)
Definition quotedOut (qs : list (CallState QuoteExactInputResult)) (j : nat) (x : Z) : Prop :=
  exists q r, qs !! j = Some q /\ result q = Some r /\ res_amountOut r = x.

Definition quotedIn (qs : list (CallState QuoteExactOutputResult)) (j : nat) (x : Z) : Prop :=
  exists q r, qs !! j = Some q /\ result q = Some r /\ res_amountIn r = x.

(** A trade was produced: the state is [VALID] or [SYNCING]. *)
Definition carriesTrade (s : V3TradeState) : bool :=
  match s with
  | VALID | SYNCING => true
  | _ => false
  end.

(** Minimising an amount is maximising its negation: an exact-output
    quote and accumulator read as exact-input ones. *)
Definition mirrorQuote (q : CallState QuoteExactOutputResult)
    : CallState QuoteExactInputResult :=
  mkCallState (valid q) ((fun r => mkQuoteIn (- res_amountIn r)) <$> result q)
              (loading q) (syncing q) (error q).

Definition mirrorBest {Route : Type} (b : ExactOut.Best Route) : ExactIn.Best Route :=
  ExactIn.mkBest (ExactOut.bestRoute b) (Z.opp <$> ExactOut.amountIn b).

(** ** Decoding the hexadecimal amount argument *)

(** The inverse of [toHexQuantity]: the numeral after the [0x] prefix. *)
Definition parseHexQuantity (s : string) : option Z :=
  match s with
  | String "0"%char (String "x"%char digits) =>
      match NilZero.int_of_string digits with
      | Some d => Some (Z.of_hex_int d)
      | None => None
      end
  | _ => None
  end.

(** ** Range selection (SupplyLiquidityV3/containers/SelectRange) *)

Module SelectRange.

(** [GlobalConst.v3LiquidityRangeType] *)
Inductive LiquidityRangeType : Type :=
| MANUAL_RANGE
| GAMMA_RANGE
| UNIPILOT_RANGE.

(** A unipilot vault as far as the component reads it. *)
Record Vault (A : Type) : Type := mkVault {
  token0 : option string;
  token1 : option string;
  vaultData : A
}.
Arguments mkVault {A} _ _ _.
Arguments token0 {A} _.
Arguments token1 {A} _.
Arguments vaultData {A} _.

(** Truthiness of an optional object: defined. *)
Definition defined {G : Type} (o : option G) : bool :=
  match o with
  | Some _ => true
  | None => false
  end.

(** Truthiness of an optional string: defined and not empty. *)
Definition truthy (s : option string) : bool :=
  match s with
  | Some s => negb (String.eqb s "")
  | None => false
  end.

(** [Price] of the SDK: a fraction of two integers between a base and a
    quote currency; [invert] exchanges both pairs. *)
Record Price (Currency : Type) : Type := mkPrice {
  baseCurrency : Currency;
  quoteCurrency : Currency;
  numerator : Z;
  denominator : Z
}.
Arguments mkPrice {Currency} _ _ _ _.
Arguments baseCurrency {Currency} _.
Arguments quoteCurrency {Currency} _.
Arguments numerator {Currency} _.
Arguments denominator {Currency} _.

Definition invert {Currency : Type} (p : Price Currency) : Price Currency :=
  mkPrice (quoteCurrency p) (baseCurrency p) (denominator p) (numerator p).

(** Both parts of the fraction are positive. *)
Definition positive {Currency : Type} (p : Price Currency) : Prop :=
  0 < numerator p /\ 0 < denominator p.

(** The fraction [p] is at most the fraction [q]. *)
Definition price_le {Currency : Type} (p q : Price Currency) : Prop :=
  numerator p * denominator q <= numerator q * denominator p.

Section Component.
Context {Currency Token A : Type}.
(** [String.prototype.toLowerCase] *)
Variable toLowerCase : string -> string.
(** [Token.sortsBefore] *)
Variable sortsBefore : Token -> Token -> bool.
(** [Price.toSignificant(5)] *)
Variable toSignificant5 : Price Currency -> string.

(** [currencyAAddress], [currencyBAddress]: the lower-cased address of the
    wrapped currency, or the empty string. *)
Definition currencyAddress (wrappedAddress : option string) : string :=
  match wrappedAddress with
  | Some a => toLowerCase a
  | None => ""
  end.

(** The predicate of [unipilotVaults.filter]. *)
Definition vaultMatches (currencyAAddress currencyBAddress : string) (item : Vault A) : bool :=
  (truthy (token0 item) && truthy (token1 item)
   && String.eqb (toLowerCase (default "" (token0 item))) (toLowerCase currencyAAddress)
   && String.eqb (toLowerCase (default "" (token1 item))) (toLowerCase currencyBAddress))
  || (truthy (token0 item) && truthy (token1 item)
      && String.eqb (toLowerCase (default "" (token0 item))) (toLowerCase currencyBAddress)
      && String.eqb (toLowerCase (default "" (token1 item))) (toLowerCase currencyAAddress)).

Definition unipilotVaultsForPair (unipilotVaults : list (Vault A))
    (currencyA currencyB : option string) : list (Vault A) :=
  List.filter (vaultMatches (currencyAddress currencyA) (currencyAddress currencyB))
              unipilotVaults.

(** The range type the effect on the currency pair switches to. *)
Definition effectRangeType {G : Type} (gammaPair : option G)
    (unipilotVaultsForPair : list (Vault A)) : LiquidityRangeType :=
  match gammaPair with
  | Some _ => GAMMA_RANGE
  | None =>
      if (0 <? length unipilotVaultsForPair)%nat then UNIPILOT_RANGE
      else MANUAL_RANGE
  end.

(** The buttons of the range-type group, in rendering order; the group is
    rendered only for a gamma pair or a non-empty vault list. *)
Definition rangeTypeButtons {G : Type} (gammaPair : option G)
    (unipilotVaultsForPair : list (Vault A)) : list LiquidityRangeType :=
  if defined gammaPair || (0 <? length unipilotVaultsForPair)%nat
  then (if defined gammaPair then [GAMMA_RANGE] else [])
       ++ (if (0 <? length unipilotVaultsForPair)%nat then [UNIPILOT_RANGE] else [])
       ++ [MANUAL_RANGE]
  else [].

(** [isSorted] *)
Definition isSorted (tokenA tokenB : option Token) : bool :=
  match tokenA, tokenB with
  | Some a, Some b => sortsBefore a b
  | _, _ => false
  end.

Definition leftPrice (sorted : bool) (priceLower priceUpper : option (Price Currency))
    : option (Price Currency) :=
  if sorted then priceLower else invert <$> priceUpper.

Definition rightPrice (sorted : bool) (priceLower priceUpper : option (Price Currency))
    : option (Price Currency) :=
  if sorted then priceUpper else invert <$> priceLower.

(** [isBeforePrice]; [>] on two strings compares them lexicographically. *)
Definition isBeforePrice (price : option string)
    (leftPrice rightPrice : option (Price Currency)) (outOfRange : bool) : bool :=
  match price, leftPrice, rightPrice with
  | Some price, Some _, Some rightPrice =>
      if String.eqb price "" then false
      else outOfRange && String.ltb (toSignificant5 rightPrice) price
  | _, _, _ => false
  end.

(** [isAfterPrice] *)
Definition isAfterPrice (price : option string)
    (leftPrice rightPrice : option (Price Currency)) (outOfRange : bool) : bool :=
  match price, leftPrice, rightPrice with
  | Some price, Some leftPrice, Some _ =>
      if String.eqb price "" then false
      else outOfRange && String.ltb price (toSignificant5 leftPrice)
  | _, _, _ => false
  end.

End Component.

(** Lower-casing of the letters A to Z, as [toLowerCase] acts on ASCII
    text. *)
Definition asciiLowerChar (c : Ascii.ascii) : Ascii.ascii :=
  let n := Ascii.N_of_ascii c in
  if ((65 <=? n) && (n <=? 90))%N then Ascii.ascii_of_N (n + 32) else c.

Fixpoint asciiLower (s : string) : string :=
  match s with
  | EmptyString => EmptyString
  | String c s' => String (asciiLowerChar c) (asciiLower s')
  end.

End SelectRange.

(** ** The tabs of the user's V3 pools (MyLiquidityPoolsV3) *)

Module MyLiquidityPoolsV3.

(** One entry of [myPoolsFilter]: the tab id, its label, the count shown
    beside it and whether the count is styled as active. *)
Record Tab : Type := mkTab {
  tabId : string;
  tabLabel : string;
  tabCount : Z;
  tabActive : bool
}.

Section Tabs.
(** [GlobalConst.utils.poolsFilter]: three constants of the application. *)
Variables quickswap unipilot gamma : string.

Definition myPoolsFilter {P : Type} (poolFilter : string) (quickPoolsCount : Z)
    (unipilotPositions : option (list P)) (gammaPoolsCount : Z) : list Tab :=
  [mkTab quickswap "Quickswap" quickPoolsCount (String.eqb poolFilter quickswap)]
  ++ match unipilotPositions with
     | Some ps =>
         if (0 <? length ps)%nat
         then [mkTab unipilot "Unipilot" (Z.of_nat (length ps))
                     (String.eqb poolFilter unipilot)]
         else []
     | None => []
     end
  ++ (if 0 <? gammaPoolsCount
      then [mkTab gamma "Gamma" gammaPoolsCount (String.eqb poolFilter gamma)]
      else []).

End Tabs.

End MyLiquidityPoolsV3.

(** * Properties *)

(** ** The reductions *)

Lemma ExactIn_reduce_from {Route : Type} (routes : list Route) qs :
  forall i acc,
    let acc' := reduce_from (ExactIn.step routes) i acc qs in
    (acc' = acc /\
     forall j x, quotedOut qs j x ->
       exists cur, ExactIn.amountOut acc = Some cur /\ x <= cur)
    \/
    (exists j a, quotedOut qs j a /\
       acc' = ExactIn.mkBest (routes !! (i + j)%nat) (Some a) /\
       (forall cur, ExactIn.amountOut acc = Some cur -> cur < a) /\
       (forall j' x, quotedOut qs j' x -> x <= a) /\
       (forall j' x, (j' < j)%nat -> quotedOut qs j' x -> x < a)).
Proof.
  induction qs as [|q qs IH]; intros i acc; simpl.
  - left. split; [reflexivity|]. intros j x (q & r & Hq & _). destruct j; discriminate.
  - assert (Hhd : forall x, quotedOut (q :: qs) 0 x <-> exists r, result q = Some r /\ res_amountOut r = x).
    { intros x. split.
      - intros (q' & r & Hq & Hr & Hx). simpl in Hq. injection Hq as <-. eauto.
      - intros (r & Hr & Hx). exists q, r. auto. }
    assert (Htl : forall j x, quotedOut (q :: qs) (S j) x <-> quotedOut qs j x).
    { intros j x. unfold quotedOut. simpl. tauto. }
    specialize (IH (S i) (ExactIn.step routes acc q i)).
    unfold ExactIn.step in *.
    destruct (result q) as [r|] eqn:Hr.
    + destruct (ExactIn.amountOut acc) as [cur|] eqn:Hcur.
      * destruct (Z.ltb_spec cur (res_amountOut r)) as [Hlt|Hge].
        -- (* the head replaces the accumulator *)
           destruct IH as [[-> Hall] | (j & a & Hj & -> & Ha & Hle & Hlt')].
           ++ right. exists 0%nat, (res_amountOut r). rewrite Nat.add_0_r.
              split; [apply Hhd; eauto|]. split; [reflexivity|].
              split; [intros ? [= <-]; lia|]. split; [|intros; lia].
              intros [|j'] x Hx.
              ** apply Hhd in Hx as (? & [= <-] & <-). lia.
              ** apply Htl, Hall in Hx as (c & [= <-] & ?). lia.
           ++ specialize (Ha _ eq_refl).
              right. exists (S j), a. rewrite Nat.add_succ_r.
              split; [apply Htl; exact Hj|]. split; [reflexivity|].
              split; [intros ? [= <-]; lia|]. split.
              ** intros [|j'] x Hx.
                 --- apply Hhd in Hx as (? & [= <-] & <-). lia.
                 --- apply Htl in Hx. eauto.
              ** intros [|j'] x Hlj Hx.
                 --- apply Hhd in Hx as (? & [= <-] & <-). lia.
                 --- apply Htl in Hx. apply (Hlt' j'); [lia|exact Hx].
        -- (* the accumulator survives the head *)
           destruct IH as [[-> Hall] | (j & a & Hj & -> & Ha & Hle & Hlt')].
           ++ left. split; [reflexivity|].
              intros [|j'] x Hx.
              ** apply Hhd in Hx as (? & [= <-] & <-). exists cur. split; [reflexivity|lia].
              ** apply Htl, Hall in Hx as (c & Hc & ?). exists c. split; [congruence|lia].
           ++ specialize (Ha _ Hcur).
              right. exists (S j), a. rewrite Nat.add_succ_r.
              split; [apply Htl; exact Hj|]. split; [reflexivity|].
              split; [intros ? [= <-]; lia|]. split.
              ** intros [|j'] x Hx.
                 --- apply Hhd in Hx as (? & [= <-] & <-). lia.
                 --- apply Htl in Hx. eauto.
              ** intros [|j'] x Hlj Hx.
                 --- apply Hhd in Hx as (? & [= <-] & <-). lia.
                 --- apply Htl in Hx. apply (Hlt' j'); [lia|exact Hx].
      * (* empty accumulator: the head is taken *)
        destruct IH as [[-> Hall] | (j & a & Hj & -> & Ha & Hle & Hlt')].
        ++ right. exists 0%nat, (res_amountOut r). rewrite Nat.add_0_r.
           split; [apply Hhd; eauto|]. split; [reflexivity|].
           split; [intros ? [=]|]. split; [|intros; lia].
           intros [|j'] x Hx.
           ** apply Hhd in Hx as (? & [= <-] & <-). lia.
           ** apply Htl, Hall in Hx as (c & [= <-] & ?). lia.
        ++ specialize (Ha _ eq_refl).
           right. exists (S j), a. rewrite Nat.add_succ_r.
           split; [apply Htl; exact Hj|]. split; [reflexivity|].
           split; [intros ? [=]|]. split.
           ** intros [|j'] x Hx.
              --- apply Hhd in Hx as (? & [= <-] & <-). lia.
              --- apply Htl in Hx. eauto.
           ** intros [|j'] x Hlj Hx.
              --- apply Hhd in Hx as (? & [= <-] & <-). lia.
              --- apply Htl in Hx. apply (Hlt' j'); [lia|exact Hx].
    + (* no result at the head *)
      destruct IH as [[-> Hall] | (j & a & Hj & -> & Ha & Hle & Hlt')].
      * left. split; [reflexivity|].
        intros [|j'] x Hx.
        -- apply Hhd in Hx as (? & [=] & _).
        -- apply Htl in Hx. eauto.
      * right. exists (S j), a. rewrite Nat.add_succ_r.
        split; [apply Htl; exact Hj|]. split; [reflexivity|].
        split; [exact Ha|]. split.
        -- intros [|j'] x Hx.
           ++ apply Hhd in Hx as (? & [=] & _).
           ++ apply Htl in Hx. eauto.
        -- intros [|j'] x Hlj Hx.
           ++ apply Hhd in Hx as (? & [=] & _).
           ++ apply Htl in Hx. apply (Hlt' j'); [lia|exact Hx].
Qed.

Lemma mirror_step {Route : Type} (routes : list Route) acc q i :
  mirrorBest (ExactOut.step routes acc q i)
  = ExactIn.step routes (mirrorBest acc) (mirrorQuote q) i.
Proof.
  unfold ExactOut.step, ExactIn.step, mirrorBest, mirrorQuote.
  destruct q as [v [r|] ld sy er], acc as [br [cur|]]; simpl; try reflexivity.
  destruct (Z.gtb_spec cur (res_amountIn r)), (Z.ltb_spec (- cur) (- res_amountIn r));
    try lia; reflexivity.
Qed.

Lemma mirror_reduce_from {Route : Type} (routes : list Route) qs :
  forall i acc,
    mirrorBest (reduce_from (ExactOut.step routes) i acc qs)
    = reduce_from (ExactIn.step routes) i (mirrorBest acc) (map mirrorQuote qs).
Proof.
  induction qs as [|q qs IH]; intros i acc; simpl; [reflexivity|].
  rewrite IH, mirror_step. reflexivity.
Qed.

Lemma mirrorBest_inj {Route : Type} (b b' : ExactOut.Best Route) :
  mirrorBest b = mirrorBest b' -> b = b'.
Proof.
  destruct b as [r [x|]], b' as [r' [x'|]]; unfold mirrorBest; simpl;
    intros H; inversion H; subst; try reflexivity.
  f_equal. f_equal. lia.
Qed.

Lemma quotedOut_mirror qs j y :
  quotedOut (map mirrorQuote qs) j y <-> quotedIn qs j (- y).
Proof.
  unfold quotedOut, quotedIn. rewrite list_lookup_fmap. split.
  - intros (q & r & Hq & Hr & <-).
    destruct (qs !! j) as [q0|] eqn:Hj; simpl in Hq; [|discriminate].
    injection Hq as <-. unfold mirrorQuote in Hr. simpl in Hr.
    destruct (result q0) as [r0|] eqn:Hr0; simpl in Hr; [|discriminate].
    injection Hr as <-. simpl. exists q0, r0. repeat split; auto; lia.
  - intros (q & r & Hq & Hr & Hy). rewrite Hq. simpl.
    exists (mirrorQuote q), (mkQuoteIn (- res_amountIn r)).
    split; [reflexivity|]. split; [unfold mirrorQuote; simpl; rewrite Hr; reflexivity|].
    simpl. lia.
Qed.

Lemma ExactOut_reduce_from {Route : Type} (routes : list Route) qs i acc :
  let acc' := reduce_from (ExactOut.step routes) i acc qs in
  (acc' = acc /\
   forall j x, quotedIn qs j x ->
     exists cur, ExactOut.amountIn acc = Some cur /\ cur <= x)
  \/
  (exists j a, quotedIn qs j a /\
     acc' = ExactOut.mkBest (routes !! (i + j)%nat) (Some a) /\
     (forall cur, ExactOut.amountIn acc = Some cur -> a < cur) /\
     (forall j' x, quotedIn qs j' x -> a <= x) /\
     (forall j' x, (j' < j)%nat -> quotedIn qs j' x -> a < x)).
Proof.
  intros acc'.
  assert (Hq : forall j x, quotedIn qs j x -> quotedOut (map mirrorQuote qs) j (- x)).
  { intros j x Hx. apply quotedOut_mirror. rewrite Z.opp_involutive. exact Hx. }
  destruct (ExactIn_reduce_from routes (map mirrorQuote qs) i (mirrorBest acc))
    as [[Heq Hall] | (j & a & Hj & Heq & Ha & Hle & Hlt)];
    rewrite <- mirror_reduce_from in Heq; fold acc' in Heq.
  - left. split; [apply mirrorBest_inj; exact Heq|].
    intros j x Hx. destruct (Hall _ _ (Hq _ _ Hx)) as (c & Hc & Hxc).
    unfold mirrorBest in Hc. simpl in Hc.
    destruct (ExactOut.amountIn acc) as [cur|]; simpl in Hc; [|discriminate].
    injection Hc as <-. exists cur. split; [reflexivity|lia].
  - right. exists j, (- a). split; [apply quotedOut_mirror; exact Hj|].
    split; [apply mirrorBest_inj; rewrite Heq; unfold mirrorBest; simpl;
            rewrite Z.opp_involutive; reflexivity|].
    split; [|split].
    + intros cur Hc. specialize (Ha (- cur)). unfold mirrorBest in Ha. simpl in Ha.
      rewrite Hc in Ha. specialize (Ha eq_refl). lia.
    + intros j' x Hx. specialize (Hle _ _ (Hq _ _ Hx)). lia.
    + intros j' x Hl Hx. specialize (Hlt _ _ Hl (Hq _ _ Hx)). lia.
Qed.

(** The exact-input reduction either finds no present result and keeps the
    empty accumulator, or ends on the least index attaining the maximum. *)
Lemma ExactIn_best_spec {Route : Type} (routes : list Route) qs :
  (ExactIn.best routes qs = ExactIn.init /\ forall j x, ~ quotedOut qs j x)
  \/
  (exists j a, quotedOut qs j a /\
     ExactIn.best routes qs = ExactIn.mkBest (routes !! j) (Some a) /\
     (forall j' x, quotedOut qs j' x -> x <= a) /\
     (forall j' x, (j' < j)%nat -> quotedOut qs j' x -> x < a)).
Proof.
  unfold ExactIn.best, reduce.
  destruct (ExactIn_reduce_from routes qs 0 ExactIn.init)
    as [[Heq Hall] | (j & a & Hj & Heq & _ & Hle & Hlt)].
  - left. split; [exact Heq|]. intros j x Hx.
    destruct (Hall _ _ Hx) as (c & Hc & _). discriminate.
  - right. exists j, a. auto.
Qed.

(** The exact-output reduction either finds no present result and keeps the
    empty accumulator, or ends on the least index attaining the minimum. *)
Lemma ExactOut_best_spec {Route : Type} (routes : list Route) qs :
  (ExactOut.best routes qs = ExactOut.init /\ forall j x, ~ quotedIn qs j x)
  \/
  (exists j a, quotedIn qs j a /\
     ExactOut.best routes qs = ExactOut.mkBest (routes !! j) (Some a) /\
     (forall j' x, quotedIn qs j' x -> a <= x) /\
     (forall j' x, (j' < j)%nat -> quotedIn qs j' x -> a < x)).
Proof.
  unfold ExactOut.best, reduce.
  destruct (ExactOut_reduce_from routes qs 0 ExactOut.init)
    as [[Heq Hall] | (j & a & Hj & Heq & _ & Hle & Hlt)].
  - left. split; [exact Heq|]. intros j x Hx.
    destruct (Hall _ _ Hx) as (c & Hc & _). discriminate.
  - right. exists j, a. auto.
Qed.

(** ** The scenarios of the specification *)

(** A direct route quoting 100 and a bridged route quoting 95: the direct
    route is taken and the state is VALID. *)
Example scenario_direct_route_wins :
  useBestV3TradeExactIn (Some (fromRawAmount "A"%string 10)) (Some "B"%string)
    ["A-B"%string; "A-C-B"%string] false
    [mkCallState true (Some (mkQuoteIn 100)) false false false;
     mkCallState true (Some (mkQuoteIn 95)) false false false]
  = mkComputation VALID
      (Some (createUncheckedTrade "A-B"%string EXACT_INPUT (fromRawAmount "A"%string 10)
               (fromRawAmount "B"%string 100))).
Proof. reflexivity. Qed.

(** The same, the bridged route's quote still in flight: LOADING. *)
Example scenario_bridged_route_loading :
  useBestV3TradeExactIn (Some (fromRawAmount "A"%string 10)) (Some "B"%string)
    ["A-B"%string; "A-C-B"%string] false
    [mkCallState true (Some (mkQuoteIn 100)) false false false;
     mkCallState true None true false false]
  = mkComputation LOADING None.
Proof. reflexivity. Qed.

(** A result beyond the end of the route list has no route: the reduction
    keeps its amount with an undefined route, and no trade is built. *)
Example scenario_result_without_route :
  ExactIn.best ["A-B"%string]
    [mkCallState true (Some (mkQuoteIn 95)) false false false;
     mkCallState true (Some (mkQuoteIn 100)) false false false]
  = ExactIn.mkBest None (Some 100)
  /\ useBestV3TradeExactIn (Some (fromRawAmount "A"%string 10)) (Some "B"%string)
       ["A-B"%string] false
       [mkCallState true (Some (mkQuoteIn 95)) false false false;
        mkCallState true (Some (mkQuoteIn 100)) false false false]
     = mkComputation NO_ROUTE_FOUND None.
Proof. split; reflexivity. Qed.

(** ** Early exits and the state/trade invariant *)

(** C5: when the fixed amount or the counter-asset is absent, both hooks
    return state INVALID with a null trade, whatever the loading flags,
    the routes and the quote results are. *)
Theorem missing_input_is_invalid {Currency Route : Type} :
  (forall (amountIn : option (CurrencyAmount Currency)) (currencyOut : option Currency)
          (routes : list Route) routesLoading qs,
      amountIn = None \/ currencyOut = None ->
      useBestV3TradeExactIn amountIn currencyOut routes routesLoading qs
      = mkComputation INVALID None)
  /\
  (forall (currencyIn : option Currency) (amountOut : option (CurrencyAmount Currency))
          (routes : list Route) routesLoading qs,
      amountOut = None \/ currencyIn = None ->
      useBestV3TradeExactOut currencyIn amountOut routes routesLoading qs
      = mkComputation INVALID None).
Proof.
  split.
  - intros amountIn currencyOut routes rl qs [-> | ->]; unfold useBestV3TradeExactIn.
    + reflexivity.
    + destruct amountIn; reflexivity.
  - intros currencyIn amountOut routes rl qs [-> | ->]; unfold useBestV3TradeExactOut.
    + reflexivity.
    + destruct amountOut; reflexivity.
Qed.

Lemma missing_input_is_invalid_witness :
  ((@None (CurrencyAmount string) = None \/ Some "B"%string = None)
   /\ useBestV3TradeExactIn (@None (CurrencyAmount string)) (Some "B"%string)
        ["A-B"%string] true
        [mkCallState true (Some (mkQuoteIn 100)) true false false]
      = mkComputation INVALID None)
  /\
  ((Some (fromRawAmount "B"%string 10) = None \/ @None string = None)
   /\ useBestV3TradeExactOut (@None string) (Some (fromRawAmount "B"%string 10))
        ["A-B"%string] false
        [mkCallState true (Some (mkQuoteOut 7)) false false false]
      = mkComputation INVALID None).
Proof.
  split; (split; [|apply missing_input_is_invalid]); solve [left; reflexivity | right; reflexivity].
Defined.

(** C6: for every input of either hook, the returned trade is non-null
    exactly when the returned state is VALID or SYNCING; in states LOADING,
    INVALID and NO_ROUTE_FOUND the trade is null. *)
Theorem trade_iff_valid_or_syncing {Currency Route : Type} :
  (forall (amountIn : option (CurrencyAmount Currency)) (currencyOut : option Currency)
          (routes : list Route) routesLoading qs,
      let r := useBestV3TradeExactIn amountIn currencyOut routes routesLoading qs in
      (trade r <> None <-> state r = VALID \/ state r = SYNCING)
      /\ (state r = LOADING \/ state r = INVALID \/ state r = NO_ROUTE_FOUND
          <-> trade r = None))
  /\
  (forall (currencyIn : option Currency) (amountOut : option (CurrencyAmount Currency))
          (routes : list Route) routesLoading qs,
      let r := useBestV3TradeExactOut currencyIn amountOut routes routesLoading qs in
      (trade r <> None <-> state r = VALID \/ state r = SYNCING)
      /\ (state r = LOADING \/ state r = INVALID \/ state r = NO_ROUTE_FOUND
          <-> trade r = None)).
Proof.
  split.
  - intros amountIn currencyOut routes rl qs. unfold useBestV3TradeExactIn.
    destruct amountIn, currencyOut; simpl; try (intuition congruence).
    destruct (rl || some loading qs); simpl; try (intuition congruence).
    destruct (ExactIn.best routes qs) as [[?|] [?|]]; simpl;
      try (intuition congruence).
    destruct (some syncing qs); simpl; intuition congruence.
  - intros currencyIn amountOut routes rl qs. unfold useBestV3TradeExactOut.
    destruct amountOut, currencyIn; simpl; try (intuition congruence).
    destruct (some _ qs); simpl; try (intuition congruence).
    destruct (rl || some loading qs); simpl; try (intuition congruence).
    destruct (ExactOut.best routes qs) as [[?|] [?|]]; simpl;
      try (intuition congruence).
    destruct (some syncing qs); simpl; intuition congruence.
Qed.

Lemma quotedOut_elem qs j x :
  quotedOut qs j x -> exists q, q ∈ qs /\ is_Some (result q).
Proof.
  intros (q & r & Hq & Hr & _). exists q. split; [|eauto].
  apply list_elem_of_lookup. eauto.
Qed.

Lemma quotedIn_elem qs j x :
  quotedIn qs j x -> exists q, q ∈ qs /\ is_Some (result q).
Proof.
  intros (q & r & Hq & Hr & _). exists q. split; [|eauto].
  apply list_elem_of_lookup. eauto.
Qed.

Lemma ExactIn_best_no_result {Route : Type} (routes : list Route) qs :
  (forall q, q ∈ qs -> result q = None) -> ExactIn.best routes qs = ExactIn.init.
Proof.
  intros Hnone. destruct (ExactIn_best_spec routes qs) as [[-> _]|(j & a & Hj & _)];
    [reflexivity|].
  apply quotedOut_elem in Hj as (q & Hq & [r Hr]). rewrite (Hnone _ Hq) in Hr. discriminate.
Qed.

Lemma ExactOut_best_no_result {Route : Type} (routes : list Route) qs :
  (forall q, q ∈ qs -> result q = None) -> ExactOut.best routes qs = ExactOut.init.
Proof.
  intros Hnone. destruct (ExactOut_best_spec routes qs) as [[-> _]|(j & a & Hj & _)];
    [reflexivity|].
  apply quotedIn_elem in Hj as (q & Hq & [r Hr]). rewrite (Hnone _ Hq) in Hr. discriminate.
Qed.

(** C10: with the fixed amount and the counter-asset present, nothing
    loading and an empty route sequence (hence an empty batch), both hooks
    return NO_ROUTE_FOUND with a null trade: the empty reduction leaves the
    accumulator at its initial value, and a batch whose quotes all came back
    without a result is reported in the same way. *)
Theorem empty_batch_no_route_found {Currency Route : Type} :
  (forall (amountIn : CurrencyAmount Currency) (currencyOut : Currency),
      useBestV3TradeExactIn (Route := Route) (Some amountIn) (Some currencyOut) [] false []
      = mkComputation NO_ROUTE_FOUND None)
  /\
  (forall (currencyIn : Currency) (amountOut : CurrencyAmount Currency),
      useBestV3TradeExactOut (Route := Route) (Some currencyIn) (Some amountOut) [] false []
      = mkComputation NO_ROUTE_FOUND None)
  /\ ExactIn.best (@nil Route) [] = ExactIn.init
  /\ ExactOut.best (@nil Route) [] = ExactOut.init
  /\
  (forall (amountIn : CurrencyAmount Currency) (currencyOut : Currency)
          (routes : list Route) qs,
      some loading qs = false ->
      (forall q, q ∈ qs -> result q = None) ->
      useBestV3TradeExactIn (Some amountIn) (Some currencyOut) routes false qs
      = useBestV3TradeExactIn (Some amountIn) (Some currencyOut) [] false [])
  /\
  (forall (currencyIn : Currency) (amountOut : CurrencyAmount Currency)
          (routes : list Route) qs,
      some (fun q => negb (valid q)) qs = false ->
      some loading qs = false ->
      (forall q, q ∈ qs -> result q = None) ->
      useBestV3TradeExactOut (Some currencyIn) (Some amountOut) routes false qs
      = useBestV3TradeExactOut (Some currencyIn) (Some amountOut) [] false []).
Proof.
  repeat split; try reflexivity.
  - intros amountIn currencyOut routes qs Hl Hnone. unfold useBestV3TradeExactIn.
    rewrite Hl, (ExactIn_best_no_result routes qs Hnone). reflexivity.
  - intros currencyIn amountOut routes qs Hv Hl Hnone. unfold useBestV3TradeExactOut.
    rewrite Hv, Hl, (ExactOut_best_no_result routes qs Hnone). reflexivity.
Qed.

Lemma empty_batch_no_route_found_witness :
  let failedIn := mkCallState (R := QuoteExactInputResult) true None false false true in
  let failedOut := mkCallState (R := QuoteExactOutputResult) true None false false true in
  useBestV3TradeExactIn (Some (fromRawAmount "A"%string 10)) (Some "B"%string)
    ["A-B"%string; "A-C-B"%string] false [failedIn; failedIn]
  = mkComputation NO_ROUTE_FOUND None
  /\
  useBestV3TradeExactOut (Some "A"%string) (Some (fromRawAmount "B"%string 10))
    ["A-B"%string; "A-C-B"%string] false [failedOut; failedOut]
  = mkComputation NO_ROUTE_FOUND None.
Proof.
  intros failedIn failedOut.
  destruct (@empty_batch_no_route_found string string) as (_ & _ & _ & _ & HIn & HOut).
  split.
  - rewrite HIn; [reflexivity | reflexivity |].
    intros q Hq. repeat (apply elem_of_cons in Hq as [-> | Hq]; [reflexivity|]).
    apply elem_of_nil in Hq. destruct Hq.
  - rewrite HOut; [reflexivity | reflexivity | reflexivity |].
    intros q Hq. repeat (apply elem_of_cons in Hq as [-> | Hq]; [reflexivity|]).
    apply elem_of_nil in Hq. destruct Hq.
Defined.

(** ** Loading *)

(** C3 (as amended): with the fixed amount and the counter-asset present,
    if route enumeration is loading or some quote result has its loading
    flag set, the exact-input hook returns LOADING with a null trade, and so
    does the exact-output hook provided every quote result of the batch has
    its valid flag set; neither hook ever returns NO_ROUTE_FOUND while
    anything is loading. *)
Theorem loading_is_reported {Currency Route : Type} :
  (forall (amountIn : CurrencyAmount Currency) (currencyOut : Currency)
          (routes : list Route) routesLoading qs,
      routesLoading = true \/ some loading qs = true ->
      useBestV3TradeExactIn (Some amountIn) (Some currencyOut) routes routesLoading qs
      = mkComputation LOADING None)
  /\
  (forall (currencyIn : Currency) (amountOut : CurrencyAmount Currency)
          (routes : list Route) routesLoading qs,
      some (fun q => negb (valid q)) qs = false ->
      routesLoading = true \/ some loading qs = true ->
      useBestV3TradeExactOut (Some currencyIn) (Some amountOut) routes routesLoading qs
      = mkComputation LOADING None)
  /\
  (forall (fixedIn : option (CurrencyAmount Currency)) (currencyOut : option Currency)
          (currencyIn : option Currency) (fixedOut : option (CurrencyAmount Currency))
          (routes : list Route) routesLoading qsIn qsOut,
      (routesLoading = true \/ some loading qsIn = true ->
       state (useBestV3TradeExactIn fixedIn currencyOut routes routesLoading qsIn)
       <> NO_ROUTE_FOUND)
      /\
      (routesLoading = true \/ some loading qsOut = true ->
       state (useBestV3TradeExactOut currencyIn fixedOut routes routesLoading qsOut)
       <> NO_ROUTE_FOUND)).
Proof.
  assert (Hor : forall a b, a = true \/ b = true -> a || b = true).
  { intros a b [-> | ->]; [reflexivity | apply orb_true_r]. }
  split; [|split].
  - intros amountIn currencyOut routes rl qs H. unfold useBestV3TradeExactIn.
    rewrite (Hor _ _ H). reflexivity.
  - intros currencyIn amountOut routes rl qs Hv H. unfold useBestV3TradeExactOut.
    rewrite Hv, (Hor _ _ H). reflexivity.
  - intros fixedIn currencyOut currencyIn fixedOut routes rl qsIn qsOut. split; intros H.
    + unfold useBestV3TradeExactIn. rewrite (Hor _ _ H).
      destruct fixedIn, currencyOut; simpl; discriminate.
    + unfold useBestV3TradeExactOut. rewrite (Hor _ _ H).
      destruct fixedOut, currencyIn; simpl; try discriminate.
      destruct (some (fun q => negb (valid q)) qsOut); simpl; discriminate.
Qed.

Lemma loading_is_reported_witness :
  let doneIn := mkCallState true (Some (mkQuoteIn 100)) false false false in
  let busyIn := mkCallState (R := QuoteExactInputResult) true None true false false in
  let doneOut := mkCallState true (Some (mkQuoteOut 7)) false false false in
  let busyOut := mkCallState (R := QuoteExactOutputResult) true None true false false in
  useBestV3TradeExactIn (Some (fromRawAmount "A"%string 10)) (Some "B"%string)
    ["A-B"%string; "A-C-B"%string; "A-D-B"%string] false [doneIn; doneIn; busyIn]
  = mkComputation LOADING None
  /\
  useBestV3TradeExactOut (Some "A"%string) (Some (fromRawAmount "B"%string 10))
    ["A-B"%string; "A-C-B"%string; "A-D-B"%string] false [doneOut; doneOut; busyOut]
  = mkComputation LOADING None
  /\
  state (useBestV3TradeExactOut (Some "A"%string) (Some (fromRawAmount "B"%string 10))
           ["A-B"%string] true [busyOut])
  <> NO_ROUTE_FOUND.
Proof.
  intros doneIn busyIn doneOut busyOut.
  destruct (@loading_is_reported string string) as (HIn & HOut & Hnever).
  split; [|split].
  - apply HIn. right. reflexivity.
  - apply HOut; [reflexivity | right; reflexivity].
  - apply (Hnever None None (Some "A"%string) (Some (fromRawAmount "B"%string 10))
             ["A-B"%string] true [] [busyOut]).
    left. reflexivity.
Defined.

(** C3 as stated fails for the exact-output hook: with the fixed amount and
    the counter-asset present and one request still loading, a batch that
    also holds a result whose valid flag is unset yields INVALID, not
    LOADING. *)
Lemma loading_not_reported_exact_out :
  let busy := mkCallState (R := QuoteExactOutputResult) true None true false false in
  let unsent := mkCallState (R := QuoteExactOutputResult) false None false false false in
  some loading [unsent; busy] = true
  /\ useBestV3TradeExactOut (Some "A"%string) (Some (fromRawAmount "B"%string 10))
       ["A-B"%string; "A-C-B"%string] false [unsent; busy]
     = mkComputation INVALID None
  /\ useBestV3TradeExactOut (Some "A"%string) (Some (fromRawAmount "B"%string 10))
       ["A-B"%string] true [unsent]
     = mkComputation INVALID None
  /\ ~ (forall (currencyIn : string) (amountOut : CurrencyAmount string)
               (routes : list string) routesLoading qs,
           routesLoading = true \/ some loading qs = true ->
           useBestV3TradeExactOut (Some currencyIn) (Some amountOut) routes routesLoading qs
           = mkComputation LOADING None).
Proof.
  intros busy unsent. split; [reflexivity|]. split; [reflexivity|].
  split; [reflexivity|].
  intros H.
  specialize (H "A"%string (fromRawAmount "B"%string 10)
                ["A-B"%string; "A-C-B"%string] false [unsent; busy]
                (or_intror eq_refl)).
  vm_compute in H. discriminate H.
Qed.

(** ** The winner *)

(** C7: whenever the reduction is reached and produces a winner, the
    returned state is SYNCING if some quote result of the whole batch has
    its syncing flag set and VALID otherwise, and the trade holds the
    winning route, the fixed amount and the quoted opposite-leg amount; a
    returned trade always comes with the state so determined. *)
Theorem winner_state_and_trade {Currency Route : Type} :
  (forall (amountIn : CurrencyAmount Currency) (currencyOut : Currency)
          (routes : list Route) qs (winner : Route) (quoted : BigNumber),
      some loading qs = false ->
      ExactIn.best routes qs = ExactIn.mkBest (Some winner) (Some quoted) ->
      useBestV3TradeExactIn (Some amountIn) (Some currencyOut) routes false qs
      = mkComputation (if some syncing qs then SYNCING else VALID)
          (Some (createUncheckedTrade winner EXACT_INPUT amountIn
                   (fromRawAmount currencyOut quoted))))
  /\
  (forall (currencyIn : Currency) (amountOut : CurrencyAmount Currency)
          (routes : list Route) qs (winner : Route) (quoted : BigNumber),
      some (fun q => negb (valid q)) qs = false ->
      some loading qs = false ->
      ExactOut.best routes qs = ExactOut.mkBest (Some winner) (Some quoted) ->
      useBestV3TradeExactOut (Some currencyIn) (Some amountOut) routes false qs
      = mkComputation (if some syncing qs then SYNCING else VALID)
          (Some (createUncheckedTrade winner EXACT_OUTPUT
                   (fromRawAmount currencyIn quoted) amountOut)))
  /\
  (forall (amountIn : option (CurrencyAmount Currency)) (currencyOut : option Currency)
          (routes : list Route) routesLoading qs t,
      trade (useBestV3TradeExactIn amountIn currencyOut routes routesLoading qs) = Some t ->
      state (useBestV3TradeExactIn amountIn currencyOut routes routesLoading qs)
      = (if some syncing qs then SYNCING else VALID)
      /\ ExactIn.best routes qs
         = ExactIn.mkBest (Some (route t)) (Some (quotient (outputAmount t)))
      /\ amountIn = Some (inputAmount t)
      /\ currencyOut = Some (currency (outputAmount t))
      /\ tradeType t = EXACT_INPUT)
  /\
  (forall (currencyIn : option Currency) (amountOut : option (CurrencyAmount Currency))
          (routes : list Route) routesLoading qs t,
      trade (useBestV3TradeExactOut currencyIn amountOut routes routesLoading qs) = Some t ->
      state (useBestV3TradeExactOut currencyIn amountOut routes routesLoading qs)
      = (if some syncing qs then SYNCING else VALID)
      /\ ExactOut.best routes qs
         = ExactOut.mkBest (Some (route t)) (Some (quotient (inputAmount t)))
      /\ amountOut = Some (outputAmount t)
      /\ currencyIn = Some (currency (inputAmount t))
      /\ tradeType t = EXACT_OUTPUT).
Proof.
  split; [|split; [|split]].
  - intros amountIn currencyOut routes qs winner quoted Hl Hb.
    unfold useBestV3TradeExactIn. rewrite Hl, Hb. reflexivity.
  - intros currencyIn amountOut routes qs winner quoted Hv Hl Hb.
    unfold useBestV3TradeExactOut. rewrite Hv, Hl, Hb. reflexivity.
  - intros amountIn currencyOut routes rl qs t. unfold useBestV3TradeExactIn.
    destruct amountIn, currencyOut; try discriminate.
    destruct (rl || some loading qs); try discriminate.
    destruct (ExactIn.best routes qs) as [[?|] [?|]]; simpl; try discriminate.
    intros [= <-]. simpl. auto.
  - intros currencyIn amountOut routes rl qs t. unfold useBestV3TradeExactOut.
    destruct amountOut, currencyIn; try discriminate.
    destruct (some _ qs); try discriminate.
    destruct (rl || some loading qs); try discriminate.
    destruct (ExactOut.best routes qs) as [[?|] [?|]]; simpl; try discriminate.
    intros [= <-]. simpl. auto.
Qed.

Lemma winner_state_and_trade_witness :
  let fresh := mkCallState true (Some (mkQuoteIn 100)) false false false in
  let stale := mkCallState true (Some (mkQuoteIn 95)) false true false in
  let freshOut := mkCallState true (Some (mkQuoteOut 12)) false false false in
  let staleOut := mkCallState true (Some (mkQuoteOut 9)) false true false in
  useBestV3TradeExactIn (Some (fromRawAmount "A"%string 10)) (Some "B"%string)
    ["A-B"%string; "A-C-B"%string] false [fresh; stale]
  = mkComputation SYNCING
      (Some (createUncheckedTrade "A-B"%string EXACT_INPUT (fromRawAmount "A"%string 10)
               (fromRawAmount "B"%string 100)))
  /\
  useBestV3TradeExactOut (Some "A"%string) (Some (fromRawAmount "B"%string 10))
    ["A-B"%string; "A-C-B"%string] false [freshOut; staleOut]
  = mkComputation SYNCING
      (Some (createUncheckedTrade "A-C-B"%string EXACT_OUTPUT (fromRawAmount "A"%string 9)
               (fromRawAmount "B"%string 10))).
Proof.
  intros fresh stale freshOut staleOut.
  destruct (@winner_state_and_trade string string) as (HIn & HOut & _).
  split.
  - apply (HIn (fromRawAmount "A"%string 10) "B"%string
               ["A-B"%string; "A-C-B"%string] [fresh; stale] "A-B"%string 100);
      reflexivity.
  - apply (HOut "A"%string (fromRawAmount "B"%string 10)
                ["A-B"%string; "A-C-B"%string] [freshOut; staleOut] "A-C-B"%string 9);
      reflexivity.
Defined.

(** A trade returned by the exact-input hook carries the route at the least
    index attaining the maximal quoted output. *)
Lemma ExactIn_trade_spec {Currency Route : Type}
    (amountIn : option (CurrencyAmount Currency)) (currencyOut : option Currency)
    (routes : list Route) routesLoading qs t :
  trade (useBestV3TradeExactIn amountIn currencyOut routes routesLoading qs) = Some t ->
  exists j,
    routes !! j = Some (route t)
    /\ quotedOut qs j (quotient (outputAmount t))
    /\ (forall j' x, quotedOut qs j' x -> x <= quotient (outputAmount t))
    /\ (forall j' x, (j' < j)%nat -> quotedOut qs j' x -> x < quotient (outputAmount t)).
Proof.
  unfold useBestV3TradeExactIn.
  destruct amountIn, currencyOut; try discriminate.
  destruct (routesLoading || some loading qs); try discriminate.
  destruct (ExactIn_best_spec routes qs) as [[-> _]|(j & a & Hj & -> & Hle & Hlt)];
    simpl; [discriminate|].
  destruct (routes !! j) as [r|] eqn:Hr; simpl; [|discriminate].
  intros [= <-]. simpl. exists j. auto.
Qed.

(** A trade returned by the exact-output hook carries the route at the
    least index attaining the minimal quoted input. *)
Lemma ExactOut_trade_spec {Currency Route : Type}
    (currencyIn : option Currency) (amountOut : option (CurrencyAmount Currency))
    (routes : list Route) routesLoading qs t :
  trade (useBestV3TradeExactOut currencyIn amountOut routes routesLoading qs) = Some t ->
  exists j,
    routes !! j = Some (route t)
    /\ quotedIn qs j (quotient (inputAmount t))
    /\ (forall j' x, quotedIn qs j' x -> quotient (inputAmount t) <= x)
    /\ (forall j' x, (j' < j)%nat -> quotedIn qs j' x -> quotient (inputAmount t) < x).
Proof.
  unfold useBestV3TradeExactOut.
  destruct amountOut, currencyIn; try discriminate.
  destruct (some (fun q => negb (valid q)) qs); try discriminate.
  destruct (routesLoading || some loading qs); try discriminate.
  destruct (ExactOut_best_spec routes qs) as [[-> _]|(j & a & Hj & -> & Hle & Hlt)];
    simpl; [discriminate|].
  destruct (routes !! j) as [r|] eqn:Hr; simpl; [|discriminate].
  intros [= <-]. simpl. exists j. auto.
Qed.

(** With aligned routes and results, a present result and nothing loading,
    the exact-input hook does return a trade. *)
Lemma ExactIn_trade_exists {Currency Route : Type}
    (amountIn : CurrencyAmount Currency) (currencyOut : Currency)
    (routes : list Route) qs :
  length routes = length qs ->
  (exists j x, quotedOut qs j x) ->
  some loading qs = false ->
  is_Some (trade (useBestV3TradeExactIn (Some amountIn) (Some currencyOut) routes false qs)).
Proof.
  intros Hlen (j0 & x0 & H0) Hl. unfold useBestV3TradeExactIn. rewrite Hl. simpl.
  destruct (ExactIn_best_spec routes qs) as [[_ Hnone]|(j & a & Hj & -> & _)];
    [destruct (Hnone _ _ H0)|].
  destruct Hj as (q & r & Hq & _). apply lookup_lt_Some in Hq. rewrite <- Hlen in Hq.
  apply lookup_lt_is_Some_2 in Hq as [rt ->]. simpl. eauto.
Qed.

Lemma ExactOut_trade_exists {Currency Route : Type}
    (currencyIn : Currency) (amountOut : CurrencyAmount Currency)
    (routes : list Route) qs :
  length routes = length qs ->
  (exists j x, quotedIn qs j x) ->
  some (fun q => negb (valid q)) qs = false ->
  some loading qs = false ->
  is_Some (trade (useBestV3TradeExactOut (Some currencyIn) (Some amountOut) routes false qs)).
Proof.
  intros Hlen (j0 & x0 & H0) Hv Hl. unfold useBestV3TradeExactOut. rewrite Hv, Hl. simpl.
  destruct (ExactOut_best_spec routes qs) as [[_ Hnone]|(j & a & Hj & -> & _)];
    [destruct (Hnone _ _ H0)|].
  destruct Hj as (q & r & Hq & _). apply lookup_lt_Some in Hq. rewrite <- Hlen in Hq.
  apply lookup_lt_is_Some_2 in Hq as [rt ->]. simpl. eauto.
Qed.

(** C1 (as amended): for index-aligned routes and quote results with a
    present result, the fixed amount and the counter-asset defined and
    nothing loading, the exact-input hook returns a trade whose output amount
    is at least the output amount of every candidate with a present result;
    the exact-output hook, when in addition every quote result has its valid
    flag set, returns a trade whose input amount is at most every
    candidate's input amount.  Whatever the input, a trade that either hook
    returns is optimal in this sense. *)
Theorem best_amount_is_optimal {Currency Route : Type} :
  (forall (amountIn : CurrencyAmount Currency) (currencyOut : Currency)
          (routes : list Route) qs,
      length routes = length qs ->
      (exists j x, quotedOut qs j x) ->
      some loading qs = false ->
      exists t,
        trade (useBestV3TradeExactIn (Some amountIn) (Some currencyOut) routes false qs)
        = Some t
        /\ forall j x, quotedOut qs j x -> x <= quotient (outputAmount t))
  /\
  (forall (currencyIn : Currency) (amountOut : CurrencyAmount Currency)
          (routes : list Route) qs,
      length routes = length qs ->
      (exists j x, quotedIn qs j x) ->
      some (fun q => negb (valid q)) qs = false ->
      some loading qs = false ->
      exists t,
        trade (useBestV3TradeExactOut (Some currencyIn) (Some amountOut) routes false qs)
        = Some t
        /\ forall j x, quotedIn qs j x -> quotient (inputAmount t) <= x)
  /\
  (forall (amountIn : option (CurrencyAmount Currency)) (currencyOut : option Currency)
          (routes : list Route) routesLoading qs t,
      trade (useBestV3TradeExactIn amountIn currencyOut routes routesLoading qs) = Some t ->
      forall j x, quotedOut qs j x -> x <= quotient (outputAmount t))
  /\
  (forall (currencyIn : option Currency) (amountOut : option (CurrencyAmount Currency))
          (routes : list Route) routesLoading qs t,
      trade (useBestV3TradeExactOut currencyIn amountOut routes routesLoading qs) = Some t ->
      forall j x, quotedIn qs j x -> quotient (inputAmount t) <= x).
Proof.
  split; [|split; [|split]].
  - intros amountIn currencyOut routes qs Hlen Hex Hl.
    destruct (ExactIn_trade_exists amountIn currencyOut routes qs Hlen Hex Hl) as [t Ht].
    exists t. split; [exact Ht|].
    destruct (ExactIn_trade_spec _ _ _ _ _ _ Ht) as (j & _ & _ & Hle & _). exact Hle.
  - intros currencyIn amountOut routes qs Hlen Hex Hv Hl.
    destruct (ExactOut_trade_exists currencyIn amountOut routes qs Hlen Hex Hv Hl) as [t Ht].
    exists t. split; [exact Ht|].
    destruct (ExactOut_trade_spec _ _ _ _ _ _ Ht) as (j & _ & _ & Hle & _). exact Hle.
  - intros amountIn currencyOut routes rl qs t Ht.
    destruct (ExactIn_trade_spec _ _ _ _ _ _ Ht) as (j & _ & _ & Hle & _). exact Hle.
  - intros currencyIn amountOut routes rl qs t Ht.
    destruct (ExactOut_trade_spec _ _ _ _ _ _ Ht) as (j & _ & _ & Hle & _). exact Hle.
Qed.

Lemma best_amount_is_optimal_witness :
  let direct := mkCallState true (Some (mkQuoteIn 100)) false false false in
  let bridged := mkCallState true (Some (mkQuoteIn 95)) false false false in
  let directOut := mkCallState true (Some (mkQuoteOut 12)) false false false in
  let bridgedOut := mkCallState true (Some (mkQuoteOut 9)) false false false in
  (exists t,
      trade (useBestV3TradeExactIn (Some (fromRawAmount "A"%string 10)) (Some "B"%string)
               ["A-B"%string; "A-C-B"%string] false [direct; bridged]) = Some t
      /\ forall j x, quotedOut [direct; bridged] j x -> x <= quotient (outputAmount t))
  /\
  (exists t,
      trade (useBestV3TradeExactOut (Some "A"%string) (Some (fromRawAmount "B"%string 10))
               ["A-B"%string; "A-C-B"%string] false [directOut; bridgedOut]) = Some t
      /\ forall j x, quotedIn [directOut; bridgedOut] j x -> quotient (inputAmount t) <= x).
Proof.
  intros direct bridged directOut bridgedOut.
  destruct (@best_amount_is_optimal string string) as (HIn & HOut & _).
  split.
  - apply HIn; [reflexivity | | reflexivity].
    exists 0%nat, 100, direct, (mkQuoteIn 100). repeat split.
  - apply HOut; [reflexivity | | reflexivity | reflexivity].
    exists 0%nat, 12, directOut, (mkQuoteOut 12). repeat split.
Defined.

(** C1 as stated fails for the exact-output hook: routes and results are
    aligned, a result is present, the fixed amount and the counter-asset are
    defined and nothing is loading, yet no trade (hence no input amount) is
    chosen, because another result has its valid flag unset. *)
Lemma exact_out_chooses_nothing :
  let quotedQ := mkCallState true (Some (mkQuoteOut 7)) false false false in
  let unsent := mkCallState (R := QuoteExactOutputResult) false None false false false in
  length ["A-B"%string; "A-C-B"%string] = length [quotedQ; unsent]
  /\ quotedIn [quotedQ; unsent] 0 7
  /\ some loading [quotedQ; unsent] = false
  /\ useBestV3TradeExactOut (Some "A"%string) (Some (fromRawAmount "B"%string 10))
       ["A-B"%string; "A-C-B"%string] false [quotedQ; unsent]
     = mkComputation INVALID None
  /\ ~ (forall (currencyIn : string) (amountOut : CurrencyAmount string)
               (routes : list string) qs,
           length routes = length qs ->
           (exists j x, quotedIn qs j x) ->
           some loading qs = false ->
           exists t,
             trade (useBestV3TradeExactOut (Some currencyIn) (Some amountOut) routes false qs)
             = Some t
             /\ forall j x, quotedIn qs j x -> quotient (inputAmount t) <= x).
Proof.
  intros quotedQ unsent.
  assert (Hq : quotedIn [quotedQ; unsent] 0 7).
  { exists quotedQ, (mkQuoteOut 7). repeat split. }
  repeat split; try reflexivity; try exact Hq.
  intros H.
  destruct (H "A"%string (fromRawAmount "B"%string 10)
              ["A-B"%string; "A-C-B"%string] [quotedQ; unsent] eq_refl
              (ex_intro _ 0%nat (ex_intro _ 7 Hq)) eq_refl) as (t & Ht & _).
  vm_compute in Ht. discriminate Ht.
Qed.

(** ** Tie-break *)

(** C4 (as amended): for index-aligned routes and quote results with a
    present result, the fixed amount and the counter-asset defined and
    nothing loading (and, for exact output, every quote result valid), the
    hook returns a trade, and the trade carries the route at the least index
    among the candidates whose present result attains the best amount: of
    several candidates with equal best amounts the earliest wins.  The
    reduction is a left-to-right fold that ends on that least index, or on
    the empty accumulator when no result is present; whatever the input, a
    trade that either hook returns carries the route at that index. *)
Theorem earliest_best_candidate_wins {Currency Route : Type} :
  (forall (amountIn : CurrencyAmount Currency) (currencyOut : Currency)
          (routes : list Route) qs,
      length routes = length qs ->
      (exists j x, quotedOut qs j x) ->
      some loading qs = false ->
      exists t j,
        trade (useBestV3TradeExactIn (Some amountIn) (Some currencyOut) routes false qs)
        = Some t
        /\ routes !! j = Some (route t)
        /\ quotedOut qs j (quotient (outputAmount t))
        /\ (forall j' x, quotedOut qs j' x -> x <= quotient (outputAmount t))
        /\ (forall j', quotedOut qs j' (quotient (outputAmount t)) -> (j <= j')%nat))
  /\
  (forall (currencyIn : Currency) (amountOut : CurrencyAmount Currency)
          (routes : list Route) qs,
      length routes = length qs ->
      (exists j x, quotedIn qs j x) ->
      some (fun q => negb (valid q)) qs = false ->
      some loading qs = false ->
      exists t j,
        trade (useBestV3TradeExactOut (Some currencyIn) (Some amountOut) routes false qs)
        = Some t
        /\ routes !! j = Some (route t)
        /\ quotedIn qs j (quotient (inputAmount t))
        /\ (forall j' x, quotedIn qs j' x -> quotient (inputAmount t) <= x)
        /\ (forall j', quotedIn qs j' (quotient (inputAmount t)) -> (j <= j')%nat))
  /\
  (forall (amountIn : option (CurrencyAmount Currency)) (currencyOut : option Currency)
          (routes : list Route) routesLoading qs t,
      trade (useBestV3TradeExactIn amountIn currencyOut routes routesLoading qs) = Some t ->
      exists j,
        routes !! j = Some (route t)
        /\ quotedOut qs j (quotient (outputAmount t))
        /\ (forall j' x, quotedOut qs j' x -> x <= quotient (outputAmount t))
        /\ (forall j', quotedOut qs j' (quotient (outputAmount t)) -> (j <= j')%nat))
  /\
  (forall (currencyIn : option Currency) (amountOut : option (CurrencyAmount Currency))
          (routes : list Route) routesLoading qs t,
      trade (useBestV3TradeExactOut currencyIn amountOut routes routesLoading qs) = Some t ->
      exists j,
        routes !! j = Some (route t)
        /\ quotedIn qs j (quotient (inputAmount t))
        /\ (forall j' x, quotedIn qs j' x -> quotient (inputAmount t) <= x)
        /\ (forall j', quotedIn qs j' (quotient (inputAmount t)) -> (j <= j')%nat))
  /\
  (forall (routes : list Route) qs,
      (ExactIn.best routes qs = ExactIn.init /\ forall j x, ~ quotedOut qs j x)
      \/ exists j a,
           ExactIn.best routes qs = ExactIn.mkBest (routes !! j) (Some a)
           /\ quotedOut qs j a
           /\ (forall j' x, quotedOut qs j' x -> x <= a)
           /\ (forall j', quotedOut qs j' a -> (j <= j')%nat))
  /\
  (forall (routes : list Route) qs,
      (ExactOut.best routes qs = ExactOut.init /\ forall j x, ~ quotedIn qs j x)
      \/ exists j a,
           ExactOut.best routes qs = ExactOut.mkBest (routes !! j) (Some a)
           /\ quotedIn qs j a
           /\ (forall j' x, quotedIn qs j' x -> a <= x)
           /\ (forall j', quotedIn qs j' a -> (j <= j')%nat)).
Proof.
  assert (HleastIn : forall (qs : list (CallState QuoteExactInputResult)) j a,
             (forall j' x, (j' < j)%nat -> quotedOut qs j' x -> x < a) ->
             forall j', quotedOut qs j' a -> (j <= j')%nat).
  { intros qs j a Hlt j' Hj'. destruct (Nat.le_gt_cases j j') as [?|Hgt]; [assumption|].
    specialize (Hlt _ _ Hgt Hj'). lia. }
  assert (HleastOut : forall (qs : list (CallState QuoteExactOutputResult)) j a,
             (forall j' x, (j' < j)%nat -> quotedIn qs j' x -> a < x) ->
             forall j', quotedIn qs j' a -> (j <= j')%nat).
  { intros qs j a Hlt j' Hj'. destruct (Nat.le_gt_cases j j') as [?|Hgt]; [assumption|].
    specialize (Hlt _ _ Hgt Hj'). lia. }
  assert (HIn : forall (amountIn : option (CurrencyAmount Currency))
                       (currencyOut : option Currency) (routes : list Route) rl qs t,
             trade (useBestV3TradeExactIn amountIn currencyOut routes rl qs) = Some t ->
             exists j,
               routes !! j = Some (route t)
               /\ quotedOut qs j (quotient (outputAmount t))
               /\ (forall j' x, quotedOut qs j' x -> x <= quotient (outputAmount t))
               /\ (forall j', quotedOut qs j' (quotient (outputAmount t)) -> (j <= j')%nat)).
  { intros amountIn currencyOut routes rl qs t Ht.
    destruct (ExactIn_trade_spec _ _ _ _ _ _ Ht) as (j & Hr & Hj & Hle & Hlt).
    exists j. repeat split; eauto. }
  assert (HOut : forall (currencyIn : option Currency)
                        (amountOut : option (CurrencyAmount Currency))
                        (routes : list Route) rl qs t,
             trade (useBestV3TradeExactOut currencyIn amountOut routes rl qs) = Some t ->
             exists j,
               routes !! j = Some (route t)
               /\ quotedIn qs j (quotient (inputAmount t))
               /\ (forall j' x, quotedIn qs j' x -> quotient (inputAmount t) <= x)
               /\ (forall j', quotedIn qs j' (quotient (inputAmount t)) -> (j <= j')%nat)).
  { intros currencyIn amountOut routes rl qs t Ht.
    destruct (ExactOut_trade_spec _ _ _ _ _ _ Ht) as (j & Hr & Hj & Hle & Hlt).
    exists j. repeat split; eauto. }
  split; [|split; [|split; [|split; [|split]]]].
  - intros amountIn currencyOut routes qs Hlen Hex Hl.
    destruct (ExactIn_trade_exists amountIn currencyOut routes qs Hlen Hex Hl) as [t Ht].
    destruct (HIn _ _ _ _ _ _ Ht) as (j & Hj). exists t, j. split; [exact Ht | exact Hj].
  - intros currencyIn amountOut routes qs Hlen Hex Hv Hl.
    destruct (ExactOut_trade_exists currencyIn amountOut routes qs Hlen Hex Hv Hl) as [t Ht].
    destruct (HOut _ _ _ _ _ _ Ht) as (j & Hj). exists t, j. split; [exact Ht | exact Hj].
  - exact HIn.
  - exact HOut.
  - intros routes qs.
    destruct (ExactIn_best_spec routes qs) as [H | (j & a & Hj & Hb & Hle & Hlt)];
      [left; exact H | right]. exists j, a. repeat split; eauto.
  - intros routes qs.
    destruct (ExactOut_best_spec routes qs) as [H | (j & a & Hj & Hb & Hle & Hlt)];
      [left; exact H | right]. exists j, a. repeat split; eauto.
Qed.

Lemma earliest_best_candidate_wins_witness :
  let first := mkCallState true (Some (mkQuoteIn 100)) false false false in
  let second := mkCallState true (Some (mkQuoteIn 100)) false false false in
  let third := mkCallState true (Some (mkQuoteIn 95)) false false false in
  let firstOut := mkCallState true (Some (mkQuoteOut 12)) false false false in
  let secondOut := mkCallState true (Some (mkQuoteOut 9)) false false false in
  let thirdOut := mkCallState true (Some (mkQuoteOut 9)) false false false in
  let routes := ["A-B"%string; "A-C-B"%string; "A-D-B"%string] in
  (exists t j,
      trade (useBestV3TradeExactIn (Some (fromRawAmount "A"%string 10)) (Some "B"%string)
               routes false [first; second; third]) = Some t
      /\ routes !! j = Some (route t)
      /\ quotedOut [first; second; third] j (quotient (outputAmount t))
      /\ (forall j' x, quotedOut [first; second; third] j' x -> x <= quotient (outputAmount t))
      /\ (forall j', quotedOut [first; second; third] j' (quotient (outputAmount t))
                     -> (j <= j')%nat))
  /\
  (exists t j,
      trade (useBestV3TradeExactOut (Some "A"%string) (Some (fromRawAmount "B"%string 10))
               routes false [firstOut; secondOut; thirdOut]) = Some t
      /\ routes !! j = Some (route t)
      /\ quotedIn [firstOut; secondOut; thirdOut] j (quotient (inputAmount t))
      /\ (forall j' x, quotedIn [firstOut; secondOut; thirdOut] j' x
                       -> quotient (inputAmount t) <= x)
      /\ (forall j', quotedIn [firstOut; secondOut; thirdOut] j' (quotient (inputAmount t))
                     -> (j <= j')%nat))
  /\ route <$> trade (useBestV3TradeExactIn (Some (fromRawAmount "A"%string 10))
                        (Some "B"%string) routes false [first; second; third])
     = Some "A-B"%string
  /\ route <$> trade (useBestV3TradeExactOut (Some "A"%string)
                        (Some (fromRawAmount "B"%string 10)) routes false
                        [firstOut; secondOut; thirdOut])
     = Some "A-C-B"%string.
Proof.
  intros first second third firstOut secondOut thirdOut routes.
  destruct (@earliest_best_candidate_wins string string) as (HIn & HOut & _).
  split; [|split; [|split; reflexivity]].
  - apply HIn; [reflexivity | | reflexivity].
    exists 0%nat, 100, first, (mkQuoteIn 100). repeat split.
  - apply HOut; [reflexivity | | reflexivity | reflexivity].
    exists 0%nat, 12, firstOut, (mkQuoteOut 12). repeat split.
Defined.

(** C4 as stated fails for the exact-output hook: two candidates carry the
    equal best amount 9, routes and results are aligned, both inputs are
    present and nothing is loading, yet no candidate is returned, because a
    third result has its valid flag unset. *)
Lemma exact_out_tie_returns_nothing :
  let tieA := mkCallState true (Some (mkQuoteOut 9)) false false false in
  let tieB := mkCallState true (Some (mkQuoteOut 9)) false false false in
  let unsent := mkCallState (R := QuoteExactOutputResult) false None false false false in
  let routes := ["A-B"%string; "A-C-B"%string; "A-D-B"%string] in
  length routes = length [tieA; tieB; unsent]
  /\ quotedIn [tieA; tieB; unsent] 0 9
  /\ quotedIn [tieA; tieB; unsent] 1 9
  /\ (forall j x, quotedIn [tieA; tieB; unsent] j x -> 9 <= x)
  /\ some loading [tieA; tieB; unsent] = false
  /\ useBestV3TradeExactOut (Some "A"%string) (Some (fromRawAmount "B"%string 10))
       routes false [tieA; tieB; unsent]
     = mkComputation INVALID None
  /\ ~ (forall (currencyIn : string) (amountOut : CurrencyAmount string)
               (routes : list string) qs (j1 j2 : nat) (x : Z),
           length routes = length qs ->
           (j1 < j2)%nat -> quotedIn qs j1 x -> quotedIn qs j2 x ->
           (forall j y, quotedIn qs j y -> x <= y) ->
           some loading qs = false ->
           exists t j,
             trade (useBestV3TradeExactOut (Some currencyIn) (Some amountOut) routes false qs)
             = Some t
             /\ routes !! j = Some (route t)
             /\ (j <= j1)%nat).
Proof.
  intros tieA tieB unsent routes.
  assert (H0 : quotedIn [tieA; tieB; unsent] 0 9).
  { exists tieA, (mkQuoteOut 9). repeat split. }
  assert (H1 : quotedIn [tieA; tieB; unsent] 1 9).
  { exists tieB, (mkQuoteOut 9). repeat split. }
  assert (Hbest : forall j x, quotedIn [tieA; tieB; unsent] j x -> 9 <= x).
  { intros j x (q & r & Hq & Hr & <-).
    destruct j as [|[|[|j]]]; simpl in Hq; try discriminate;
      injection Hq as <-; simpl in Hr; try discriminate;
      injection Hr as <-; simpl; lia. }
  repeat split; try reflexivity; try assumption.
  intros H.
  destruct (H "A"%string (fromRawAmount "B"%string 10) routes [tieA; tieB; unsent]
              0%nat 1%nat 9 eq_refl (Nat.lt_0_succ 0) H0 H1 Hbest eq_refl)
    as (t & j & Ht & _).
  vm_compute in Ht. discriminate Ht.
Qed.

(** ** Symmetry of the two hooks *)

Lemma existsb_view {R : Type} (amt : R -> BigNumber) (qs : list (CallState R)) :
  some loading (map (Generic.view amt) qs) = some loading qs
  /\ some syncing (map (Generic.view amt) qs) = some syncing qs.
Proof.
  unfold some. induction qs as [|q qs [IHl IHs]]; simpl; [auto|].
  rewrite IHl, IHs. auto.
Qed.

Lemma generic_reduce_in {Route : Type} (routes : list Route) qs :
  forall i acc gacc,
    Generic.bestRoute gacc = ExactIn.bestRoute acc ->
    Generic.amount gacc = ExactIn.amountOut acc ->
    let g := reduce_from (Generic.step EXACT_INPUT routes) i gacc
               (map (Generic.view res_amountOut) qs) in
    let b := reduce_from (ExactIn.step routes) i acc qs in
    Generic.bestRoute g = ExactIn.bestRoute b /\ Generic.amount g = ExactIn.amountOut b.
Proof.
  induction qs as [|q qs IH]; intros i acc gacc Hr Ha; simpl; [auto|].
  apply IH; unfold Generic.step, ExactIn.step; simpl;
    destruct (result q) as [r|]; simpl; auto; rewrite Ha;
    destruct (ExactIn.amountOut acc) as [cur|] eqn:Hc; simpl; auto;
    destruct (cur <? res_amountOut r); simpl; congruence.
Qed.

Lemma generic_reduce_out {Route : Type} (routes : list Route) qs :
  forall i acc gacc,
    Generic.bestRoute gacc = ExactOut.bestRoute acc ->
    Generic.amount gacc = ExactOut.amountIn acc ->
    let g := reduce_from (Generic.step EXACT_OUTPUT routes) i gacc
               (map (Generic.view res_amountIn) qs) in
    let b := reduce_from (ExactOut.step routes) i acc qs in
    Generic.bestRoute g = ExactOut.bestRoute b /\ Generic.amount g = ExactOut.amountIn b.
Proof.
  induction qs as [|q qs IH]; intros i acc gacc Hr Ha; simpl; [auto|].
  apply IH; unfold Generic.step, ExactOut.step; simpl;
    destruct (result q) as [r|]; simpl; auto; rewrite Ha;
    destruct (ExactOut.amountIn acc) as [cur|] eqn:Hc; simpl; auto;
    rewrite Z.gtb_ltb; destruct (res_amountIn r <? cur); simpl; congruence.
Qed.

(** C2 (as amended): the exact-input hook is the direction-generic selector
    at EXACT_INPUT; the exact-output hook is the same selector at
    EXACT_OUTPUT (same checks in the same order, minimising instead of
    maximising, same tie-break) whenever every quote result has its valid
    flag set, and it returns INVALID with a null trade when the fixed amount
    and the counter-asset are present but some quote result has its valid
    flag unset.  So exact input is INVALID exactly when the fixed amount or
    the counter-asset is absent, exact output exactly when one of them is
    absent or some quote result is not valid. *)
Theorem exact_out_mirrors_exact_in {Currency Route : Type} :
  (forall (amountIn : option (CurrencyAmount Currency)) (currencyOut : option Currency)
          (routes : list Route) routesLoading qs,
      useBestV3TradeExactIn amountIn currencyOut routes routesLoading qs
      = Generic.selectBestTrade EXACT_INPUT amountIn currencyOut routes routesLoading
          (map (Generic.view res_amountOut) qs))
  /\
  (forall (currencyIn : option Currency) (amountOut : option (CurrencyAmount Currency))
          (routes : list Route) routesLoading qs,
      some (fun q => negb (valid q)) qs = false ->
      useBestV3TradeExactOut currencyIn amountOut routes routesLoading qs
      = Generic.selectBestTrade EXACT_OUTPUT amountOut currencyIn routes routesLoading
          (map (Generic.view res_amountIn) qs))
  /\
  (forall (currencyIn : Currency) (amountOut : CurrencyAmount Currency)
          (routes : list Route) routesLoading qs,
      some (fun q => negb (valid q)) qs = true ->
      useBestV3TradeExactOut (Some currencyIn) (Some amountOut) routes routesLoading qs
      = mkComputation INVALID None)
  /\
  (forall (amountIn : option (CurrencyAmount Currency)) (currencyOut : option Currency)
          (routes : list Route) routesLoading qs,
      state (useBestV3TradeExactIn amountIn currencyOut routes routesLoading qs) = INVALID
      <-> amountIn = None \/ currencyOut = None)
  /\
  (forall (currencyIn : option Currency) (amountOut : option (CurrencyAmount Currency))
          (routes : list Route) routesLoading qs,
      state (useBestV3TradeExactOut currencyIn amountOut routes routesLoading qs) = INVALID
      <-> amountOut = None \/ currencyIn = None
          \/ some (fun q => negb (valid q)) qs = true).
Proof.
  split; [|split; [|split; [|split]]].
  - intros amountIn currencyOut routes rl qs.
    unfold useBestV3TradeExactIn, Generic.selectBestTrade.
    destruct amountIn as [a|], currencyOut as [c|]; try reflexivity.
    destruct (existsb_view res_amountOut qs) as [-> ->].
    destruct (rl || some loading qs); [reflexivity|].
    unfold ExactIn.best, reduce.
    destruct (generic_reduce_in routes qs 0 ExactIn.init (Generic.mkBest None None)
                eq_refl eq_refl) as [-> ->].
    reflexivity.
  - intros currencyIn amountOut routes rl qs Hv.
    unfold useBestV3TradeExactOut, Generic.selectBestTrade.
    destruct amountOut as [a|], currencyIn as [c|]; try reflexivity.
    rewrite Hv. destruct (existsb_view res_amountIn qs) as [-> ->].
    destruct (rl || some loading qs); [reflexivity|].
    unfold ExactOut.best, reduce.
    destruct (generic_reduce_out routes qs 0 ExactOut.init (Generic.mkBest None None)
                eq_refl eq_refl) as [-> ->].
    reflexivity.
  - intros currencyIn amountOut routes rl qs Hv.
    unfold useBestV3TradeExactOut. rewrite Hv. reflexivity.
  - intros amountIn currencyOut routes rl qs. unfold useBestV3TradeExactIn.
    destruct amountIn, currencyOut; simpl; try (intuition congruence).
    destruct (rl || some loading qs); simpl; try (intuition congruence).
    destruct (ExactIn.best routes qs) as [[?|] [?|]]; simpl; try (intuition congruence).
    destruct (some syncing qs); simpl; intuition congruence.
  - intros currencyIn amountOut routes rl qs. unfold useBestV3TradeExactOut.
    destruct amountOut, currencyIn; simpl; try (intuition congruence).
    destruct (some (fun q => negb (valid q)) qs); simpl; try (intuition congruence).
    destruct (rl || some loading qs); simpl; try (intuition congruence).
    destruct (ExactOut.best routes qs) as [[?|] [?|]]; simpl; try (intuition congruence).
    destruct (some syncing qs); simpl; intuition congruence.
Qed.

Lemma exact_out_mirrors_exact_in_witness :
  let cheap := mkCallState true (Some (mkQuoteOut 9)) false false false in
  let dear := mkCallState true (Some (mkQuoteOut 12)) false false false in
  let unsent := mkCallState (R := QuoteExactOutputResult) false None false false false in
  useBestV3TradeExactOut (Some "A"%string) (Some (fromRawAmount "B"%string 10))
    ["A-B"%string; "A-C-B"%string] false [dear; cheap]
  = Generic.selectBestTrade EXACT_OUTPUT (Some (fromRawAmount "B"%string 10)) (Some "A"%string)
      ["A-B"%string; "A-C-B"%string] false
      (map (Generic.view res_amountIn) [dear; cheap])
  /\
  useBestV3TradeExactOut (Some "A"%string) (Some (fromRawAmount "B"%string 10))
    ["A-B"%string; "A-C-B"%string] false [dear; unsent]
  = mkComputation INVALID None.
Proof.
  intros cheap dear unsent.
  destruct (@exact_out_mirrors_exact_in string string) as (_ & HOut & HInv & _).
  split.
  - apply HOut. reflexivity.
  - apply HInv. reflexivity.
Defined.

(** C2 as stated fails: the exact-output hook returns INVALID although the
    fixed amount and the counter-asset are both present, where the
    exact-input hook on the like batch goes on to NO_ROUTE_FOUND. *)
Lemma exact_out_invalid_with_inputs_present :
  let unsentOut := mkCallState (R := QuoteExactOutputResult) false None false false false in
  let unsentIn := mkCallState (R := QuoteExactInputResult) false None false false false in
  useBestV3TradeExactOut (Some "A"%string) (Some (fromRawAmount "B"%string 10))
    ["A-B"%string] false [unsentOut]
  = mkComputation INVALID None
  /\ useBestV3TradeExactIn (Some (fromRawAmount "A"%string 10)) (Some "B"%string)
       ["A-B"%string] false [unsentIn]
     = mkComputation NO_ROUTE_FOUND None
  /\ ~ (forall (currencyIn : option string) (amountOut : option (CurrencyAmount string))
               (routes : list string) routesLoading qs,
           state (useBestV3TradeExactOut currencyIn amountOut routes routesLoading qs)
           = INVALID
           <-> amountOut = None \/ currencyIn = None).
Proof.
  intros unsentOut unsentIn. split; [reflexivity|]. split; [reflexivity|].
  intros H.
  destruct (proj1 (H (Some "A"%string) (Some (fromRawAmount "B"%string 10))
                     ["A-B"%string] false [unsentOut]) eq_refl) as [Hn | Hn];
    discriminate Hn.
Qed.

(** ** Gas ceiling of the quote requests *)

Lemma quoteGasRequired_defined (ZKEVM c : Z) :
  c <> 0 ->
  quoteGasRequired ZKEVM (Some c)
  = Some (if c =? ZKEVM then 100000000 else DEFAULT_GAS_QUOTE).
Proof.
  intros Hc. unfold quoteGasRequired, QUOTE_GAS_OVERRIDES.
  destruct (Z.eqb_spec c 0) as [|_]; [contradiction|].
  destruct (Z.eqb_spec c ZKEVM) as [->|Hne].
  - rewrite lookup_singleton_eq. reflexivity.
  - rewrite lookup_singleton_ne by congruence. reflexivity.
Qed.

Lemma requests_gas {Path : Type} (c : QuoteCall Path) rq :
  rq ∈ requests c -> req_gas rq = gasRequired c.
Proof.
  unfold requests. intros H. apply list_elem_of_In, in_map_iff in H as (inp & <- & _).
  reflexivity.
Qed.

(** C8 (as amended): whenever the current chain id is defined (and not
    zero), every quote request of either hook carries a gas ceiling:
    100,000,000 on the zkEVM chain, for which an override is configured, and
    the default 2,000,000 on every other chain; there is one request per
    route.  When the chain id is undefined the gas option is undefined. *)
Theorem gas_ceiling_attached {Currency Route Path : Type}
    (ZKEVM : Z) (encode : Route -> bool -> Path) :
  DEFAULT_GAS_QUOTE = 2000000
  /\
  (forall c (amountIn : option (CurrencyAmount Currency)) routes rq,
      c <> 0 ->
      rq ∈ requests (quoteExactInCall ZKEVM encode (Some c) amountIn routes) ->
      req_gas rq = Some (if c =? ZKEVM then 100000000 else 2000000))
  /\
  (forall c (amountOut : option (CurrencyAmount Currency)) routes rq,
      c <> 0 ->
      rq ∈ requests (quoteExactOutCall ZKEVM encode (Some c) amountOut routes) ->
      req_gas rq = Some (if c =? ZKEVM then 100000000 else 2000000))
  /\
  (forall chainId (amount : option (CurrencyAmount Currency)) routes,
      length (requests (quoteExactInCall ZKEVM encode chainId amount routes)) = length routes
      /\ length (requests (quoteExactOutCall ZKEVM encode chainId amount routes))
         = length routes)
  /\
  (forall (amount : option (CurrencyAmount Currency)) routes,
      gasRequired (quoteExactInCall ZKEVM encode None amount routes) = None
      /\ gasRequired (quoteExactOutCall ZKEVM encode None amount routes) = None).
Proof.
  split; [reflexivity|]. split; [|split; [|split]].
  - intros c amountIn routes rq Hc Hrq. apply requests_gas in Hrq. rewrite Hrq.
    simpl. apply quoteGasRequired_defined. exact Hc.
  - intros c amountOut routes rq Hc Hrq. apply requests_gas in Hrq. rewrite Hrq.
    simpl. apply quoteGasRequired_defined. exact Hc.
  - intros chainId amount routes. unfold requests, quoteExactInCall, quoteExactOutCall,
      quoteExactInInputs, quoteExactOutInputs. simpl.
    rewrite !length_map. auto.
  - intros amount routes. split; reflexivity.
Qed.

Lemma gas_ceiling_attached_witness :
  let direct := PathEncoder.mkRoute 1 [PathEncoder.mkPool 1 2 500] in
  let amountIn := Some (fromRawAmount "A"%string 10) in
  (forall rq,
      rq ∈ requests (quoteExactInCall 1101 PathEncoder.encodeRouteToPath (Some 1101)
                       amountIn [direct]) ->
      req_gas rq = Some 100000000)
  /\
  (forall rq,
      rq ∈ requests (quoteExactOutCall 1101 PathEncoder.encodeRouteToPath (Some 137)
                       amountIn [direct]) ->
      req_gas rq = Some 2000000).
Proof.
  intros direct amountIn.
  destruct (@gas_ceiling_attached string PathEncoder.Route (list Z) 1101
              PathEncoder.encodeRouteToPath) as (_ & HIn & HOut & _).
  split; intros rq Hrq.
  - apply (HIn 1101 amountIn [direct] rq); [lia | exact Hrq].
  - apply (HOut 137 amountIn [direct] rq); [lia | exact Hrq].
Defined.

(** C8 as stated fails: with no chain id the call still has one argument
    tuple per route, and the request built from it carries no gas ceiling. *)
Lemma request_without_gas_ceiling :
  let direct := PathEncoder.mkRoute 1 [PathEncoder.mkPool 1 2 500] in
  let amountIn := Some (fromRawAmount "A"%string 10) in
  let rqs := requests (quoteExactInCall 1101 PathEncoder.encodeRouteToPath None
                         amountIn [direct]) in
  map req_gas rqs = [None]
  /\ map req_amount rqs = [Some "0xa"%string]
  /\ ~ (forall chainId rq,
           rq ∈ requests (quoteExactInCall 1101 PathEncoder.encodeRouteToPath chainId
                            amountIn [direct]) ->
           req_gas rq = Some 100000000 \/ req_gas rq = Some 2000000).
Proof.
  intros direct amountIn rqs. split; [reflexivity|]. split; [reflexivity|].
  intros H.
  destruct (H None (mkQuoteRequest (PathEncoder.encodeRouteToPath direct false)
                      (Some "0xa"%string) None)) as [Hn | Hn];
    [apply list_elem_of_In; left; reflexivity | discriminate Hn | discriminate Hn].
Qed.

(** ** Path encoding *)

Module PathEncoderFacts.
Import PathEncoder.

Lemma be_bytes_length n z : length (be_bytes n z) = n.
Proof. induction n as [|n IH]; simpl; [reflexivity | rewrite IH; reflexivity]. Qed.

Lemma be_fold n z : forall acc,
  fold_left (fun acc b => acc * 256 + b) (be_bytes n z) acc
  = acc * 256 ^ Z.of_nat n + z mod 256 ^ Z.of_nat n.
Proof.
  induction n as [|n IH]; intros acc.
  - simpl. rewrite Z.mod_1_r. lia.
  - cbn [be_bytes fold_left]. rewrite IH.
    rewrite Nat2Z.inj_succ, Z.pow_succ_r by lia.
    assert (Hp : 0 < 256 ^ Z.of_nat n) by (apply Z.pow_pos_nonneg; lia).
    rewrite (Z.mul_comm 256 (256 ^ Z.of_nat n)).
    rewrite (Z.rem_mul_r z (256 ^ Z.of_nat n) 256) by lia.
    lia.
Qed.

Lemma be_value_bytes n z :
  0 <= z < 256 ^ Z.of_nat n -> be_value (be_bytes n z) = z.
Proof.
  intros Hz. unfold be_value. rewrite be_fold, Z.mod_small by exact Hz. lia.
Qed.

Lemma itemOk_address a : itemOk (PAddress a) = true -> be_value (be_bytes ADDR_SIZE a) = a.
Proof.
  unfold itemOk. intros H. apply andb_true_iff in H as [H1 H2].
  apply be_value_bytes. change (256 ^ Z.of_nat ADDR_SIZE) with (2 ^ 160). lia.
Qed.

Lemma itemOk_fee f : itemOk (PFee f) = true -> be_value (be_bytes FEE_SIZE f) = f.
Proof.
  unfold itemOk. intros H. apply andb_true_iff in H as [H1 H2].
  apply be_value_bytes. change (256 ^ Z.of_nat FEE_SIZE) with (2 ^ 24). lia.
Qed.

Lemma pack_hop f a hs :
  pack (hopItems ((f, a) :: hs))
  = be_bytes FEE_SIZE f ++ be_bytes ADDR_SIZE a ++ pack (hopItems hs).
Proof.
  unfold pack, hopItems. cbn [flat_map fst snd app packItem]. reflexivity.
Qed.

Lemma decodeHops_unfold fuel bs :
  bs <> [] ->
  decodeHops (S fuel) bs
  = if (length bs <? FEE_SIZE + ADDR_SIZE)%nat then None
    else match decodeHops fuel (drop (FEE_SIZE + ADDR_SIZE) bs) with
         | Some rest =>
             Some (PFee (be_value (take FEE_SIZE bs))
                   :: PAddress (be_value (take ADDR_SIZE (drop FEE_SIZE bs)))
                   :: rest)
         | None => None
         end.
Proof. destruct bs; [congruence | reflexivity]. Qed.

Lemma decodeHops_pack hs : forall fuel,
  (length hs <= fuel)%nat ->
  (forall it, In it (hopItems hs) -> itemOk it = true) ->
  decodeHops fuel (pack (hopItems hs)) = Some (hopItems hs).
Proof.
  induction hs as [|[f a] hs IH]; intros fuel Hfuel Hok.
  - destruct fuel; reflexivity.
  - destruct fuel as [|fuel]; [simpl in Hfuel; lia|].
    rewrite pack_hop.
    set (X := be_bytes FEE_SIZE f). set (Y := be_bytes ADDR_SIZE a).
    set (rest := pack (hopItems hs)).
    assert (HX : length X = FEE_SIZE) by apply be_bytes_length.
    assert (HY : length Y = ADDR_SIZE) by apply be_bytes_length.
    rewrite decodeHops_unfold.
    2:{ intros E. apply (f_equal length) in E. rewrite length_app, HX in E.
        discriminate E. }
    assert (Hlen : (length (X ++ Y ++ rest) <? FEE_SIZE + ADDR_SIZE)%nat = false).
    { apply Nat.ltb_ge. rewrite !length_app, HX, HY. lia. }
    rewrite Hlen.
    rewrite (take_app_length' X (Y ++ rest) FEE_SIZE) by (symmetry; exact HX).
    rewrite (drop_app_length' X (Y ++ rest) FEE_SIZE) by (symmetry; exact HX).
    rewrite (take_app_length' Y rest ADDR_SIZE) by (symmetry; exact HY).
    rewrite <- (drop_drop (X ++ Y ++ rest) ADDR_SIZE FEE_SIZE).
    rewrite (drop_app_length' X (Y ++ rest) FEE_SIZE) by (symmetry; exact HX).
    rewrite (drop_app_length' Y rest ADDR_SIZE) by (symmetry; exact HY).
    unfold rest. rewrite IH.
    + unfold X, Y. rewrite itemOk_fee, itemOk_address.
      * reflexivity.
      * apply Hok. simpl. auto.
      * apply Hok. simpl. auto.
    + simpl in Hfuel. lia.
    + intros it Hit. apply Hok. simpl. auto.
Qed.

Lemma pack_hops_length hs : (length hs <= length (pack (hopItems hs)))%nat.
Proof.
  induction hs as [|[f a] hs IH]; [simpl; lia|].
  rewrite pack_hop, !length_app, !be_bytes_length. unfold FEE_SIZE, ADDR_SIZE.
  simpl length. lia.
Qed.

(** Decoding undoes packing on every alternating asset/fee sequence whose
    assets and fee tiers fit their widths. *)
Lemma decodePath_pack a hs :
  (forall it, In it (PAddress a :: hopItems hs) -> itemOk it = true) ->
  decodePath (pack (PAddress a :: hopItems hs)) = Some (PAddress a :: hopItems hs).
Proof.
  intros Hok. unfold decodePath.
  change (pack (PAddress a :: hopItems hs))
    with (be_bytes ADDR_SIZE a ++ pack (hopItems hs)).
  set (Y := be_bytes ADDR_SIZE a). set (rest := pack (hopItems hs)).
  assert (HY : length Y = ADDR_SIZE) by apply be_bytes_length.
  assert (Hlen : (length (Y ++ rest) <? ADDR_SIZE)%nat = false).
  { apply Nat.ltb_ge. rewrite length_app, HY. lia. }
  rewrite Hlen.
  rewrite (take_app_length' Y rest ADDR_SIZE) by (symmetry; exact HY).
  rewrite (drop_app_length' Y rest ADDR_SIZE) by (symmetry; exact HY).
  unfold rest. rewrite decodeHops_pack.
  - unfold Y. rewrite itemOk_address; [reflexivity|]. apply Hok. left. reflexivity.
  - pose proof (pack_hops_length hs) as Hp. rewrite length_app. lia.
  - intros it Hit. apply Hok. right. exact Hit.
Qed.

(** Reversing an alternating sequence that starts and ends with an asset
    gives such a sequence again. *)
Lemma rev_alternating hs : forall a acc,
  exists a' hs',
    rev (PAddress a :: hopItems hs) ++ hopItems acc = PAddress a' :: hopItems hs'.
Proof.
  induction hs as [|[f b] hs IH]; intros a acc.
  - exists a, acc. reflexivity.
  - destruct (IH b ((f, a) :: acc)) as (a' & hs' & E). exists a', hs'.
    rewrite <- E. change (hopItems ((f, b) :: hs)) with (PFee f :: PAddress b :: hopItems hs).
    change (hopItems ((f, a) :: acc)) with ([PFee f; PAddress a] ++ hopItems acc).
    cbn [rev]. rewrite <- !app_assoc. reflexivity.
Qed.

Lemma encode_round_trip (r : Route) :
  wfRoute r = true ->
  decodePath (encodeRouteToPath r false) = Some (pathItems r)
  /\ decodePath (encodeRouteToPath r true) = Some (rev (pathItems r)).
Proof.
  unfold wfRoute. rewrite forallb_forall. intros Hok. unfold encodeRouteToPath. split.
  - apply decodePath_pack. exact Hok.
  - destruct (rev_alternating (hops (input r) (pools r)) (input r) []) as (a' & hs' & E).
    change (hopItems []) with (@nil PathItem) in E. rewrite app_nil_r in E.
    fold (pathItems r) in E. rewrite E. apply decodePath_pack.
    rewrite <- E. intros it Hit. apply Hok. apply in_rev. exact Hit.
Qed.

End PathEncoderFacts.

(** C9: for every route (whose assets and fee tiers fit their encoded
    widths) the bytes encoded with the exact-output flag decode to the
    asset/fee sequence of the route reversed, and the bytes encoded with the
    exact-input flag decode to that sequence start to end; the exact-input
    hook encodes each route with the flag false and the exact-output hook
    with the flag true. *)
Theorem encoded_path_round_trip :
  (forall r : PathEncoder.Route,
      PathEncoder.wfRoute r = true ->
      PathEncoder.decodePath (PathEncoder.encodeRouteToPath r false)
      = Some (PathEncoder.pathItems r)
      /\ PathEncoder.decodePath (PathEncoder.encodeRouteToPath r true)
         = Some (rev (PathEncoder.pathItems r)))
  /\
  (forall (Currency Route Path : Type) (encode : Route -> bool -> Path)
          (amount : option (CurrencyAmount Currency)) (routes : list Route),
      map fst (quoteExactInInputs encode amount routes)
      = map (fun r => encode r false) routes
      /\ map fst (quoteExactOutInputs encode amount routes)
         = map (fun r => encode r true) routes)
  /\
  (forall (Currency : Type) (amount : option (CurrencyAmount Currency))
          (routes : list PathEncoder.Route),
      forallb PathEncoder.wfRoute routes = true ->
      map (fun inp => PathEncoder.decodePath (fst inp))
          (quoteExactInInputs PathEncoder.encodeRouteToPath amount routes)
      = map (fun r => Some (PathEncoder.pathItems r)) routes
      /\ map (fun inp => PathEncoder.decodePath (fst inp))
             (quoteExactOutInputs PathEncoder.encodeRouteToPath amount routes)
         = map (fun r => Some (rev (PathEncoder.pathItems r))) routes).
Proof.
  split; [exact PathEncoderFacts.encode_round_trip|]. split.
  - intros Currency Route Path encode amount routes.
    unfold quoteExactInInputs, quoteExactOutInputs. rewrite !map_map. simpl. auto.
  - intros Currency amount routes Hwf. rewrite forallb_forall in Hwf.
    unfold quoteExactInInputs, quoteExactOutInputs. rewrite !map_map. simpl.
    split; apply map_ext_in; intros r Hr;
      destruct (PathEncoderFacts.encode_round_trip r (Hwf r Hr)) as [HIn HOut]; assumption.
Qed.

Lemma encoded_path_round_trip_witness :
  let bridged :=
    PathEncoder.mkRoute 1 [PathEncoder.mkPool 1 2 500; PathEncoder.mkPool 3 2 3000] in
  PathEncoder.wfRoute bridged = true
  /\ PathEncoder.decodePath (PathEncoder.encodeRouteToPath bridged false)
     = Some [PathEncoder.PAddress 1; PathEncoder.PFee 500; PathEncoder.PAddress 2;
             PathEncoder.PFee 3000; PathEncoder.PAddress 3]
  /\ PathEncoder.decodePath (PathEncoder.encodeRouteToPath bridged true)
     = Some [PathEncoder.PAddress 3; PathEncoder.PFee 3000; PathEncoder.PAddress 2;
             PathEncoder.PFee 500; PathEncoder.PAddress 1].
Proof.
  intros bridged. split; [reflexivity|].
  exact (proj1 encoded_path_round_trip bridged eq_refl).
Defined.


(** * Further properties of the hooks *)

(** ** The amount argument *)

Lemma parseHexQuantity_toHexQuantity (q : Z) :
  parseHexQuantity (toHexQuantity q) = Some q.
Proof.
  change (toHexQuantity q)
    with (String "0"%char (String "x"%char (NilZero.string_of_int (Z.to_hex_int q)))).
  unfold parseHexQuantity. cbv beta iota.
  rewrite NilZero.isi.
  - rewrite HexadecimalZ.of_to. reflexivity.
  - destruct q; simpl; try discriminate.
    intros [= E]. exact (HexadecimalPos.Unsigned.to_uint_nonnil _ E).
  - destruct q; simpl; try discriminate.
    intros [= E]. exact (HexadecimalPos.Unsigned.to_uint_nonnil _ E).
Qed.

(** X1: one argument tuple is built per route, in route order, and its
    hexadecimal amount reads back as the raw quotient of the fixed amount
    (so different quotients never share an argument); without a fixed
    amount the amount of every tuple is undefined. *)
Theorem amount_argument_decodes {Currency Route Path : Type}
    (encode : Route -> bool -> Path) :
  (forall (amount : CurrencyAmount Currency) (routes : list Route),
      exists s,
        parseHexQuantity s = Some (quotient amount)
        /\ quoteExactInInputs encode (Some amount) routes
           = map (fun r => (encode r false, Some s)) routes
        /\ quoteExactOutInputs encode (Some amount) routes
           = map (fun r => (encode r true, Some s)) routes)
  /\
  (forall (routes : list Route),
      quoteExactInInputs (Currency := Currency) encode None routes
      = map (fun r => (encode r false, None)) routes
      /\ quoteExactOutInputs (Currency := Currency) encode None routes
         = map (fun r => (encode r true, None)) routes)
  /\
  (forall q q', toHexQuantity q = toHexQuantity q' -> q = q').
Proof.
  split; [|split].
  - intros amount routes. exists (toHexQuantity (quotient amount)).
    split; [apply parseHexQuantity_toHexQuantity|]. split; reflexivity.
  - intros routes. split; reflexivity.
  - intros q q' E. apply (f_equal parseHexQuantity) in E.
    rewrite !parseHexQuantity_toHexQuantity in E. congruence.
Qed.

Lemma amount_argument_decodes_witness :
  let direct := PathEncoder.mkRoute 1 [PathEncoder.mkPool 1 2 500] in
  let bridged :=
    PathEncoder.mkRoute 1 [PathEncoder.mkPool 1 2 500; PathEncoder.mkPool 3 2 3000] in
  exists s,
    parseHexQuantity s = Some 255
    /\ quoteExactInInputs PathEncoder.encodeRouteToPath
         (Some (fromRawAmount "A"%string 255)) [direct; bridged]
       = [(PathEncoder.encodeRouteToPath direct false, Some s);
          (PathEncoder.encodeRouteToPath bridged false, Some s)]
    /\ quoteExactOutInputs PathEncoder.encodeRouteToPath
         (Some (fromRawAmount "A"%string 255)) [direct; bridged]
       = [(PathEncoder.encodeRouteToPath direct true, Some s);
          (PathEncoder.encodeRouteToPath bridged true, Some s)].
Proof.
  intros direct bridged.
  exact (proj1 (@amount_argument_decodes string PathEncoder.Route (list Z)
                  PathEncoder.encodeRouteToPath)
           (fromRawAmount "A"%string 255) [direct; bridged]).
Defined.

(** ** When each state is returned *)

Lemma no_quote_no_result_in qs :
  (forall j x, ~ quotedOut qs j x) -> forall q, q ∈ qs -> result q = None.
Proof.
  intros Hnone q Hq. apply list_elem_of_lookup in Hq as [j Hj].
  destruct (result q) as [r|] eqn:Hr; [|reflexivity].
  destruct (Hnone j (res_amountOut r)). exists q, r. auto.
Qed.

Lemma no_quote_no_result_out qs :
  (forall j x, ~ quotedIn qs j x) -> forall q, q ∈ qs -> result q = None.
Proof.
  intros Hnone q Hq. apply list_elem_of_lookup in Hq as [j Hj].
  destruct (result q) as [r|] eqn:Hr; [|reflexivity].
  destruct (Hnone j (res_amountIn r)). exists q, r. auto.
Qed.

(** X2: with aligned routes and results, either hook answers
    NO_ROUTE_FOUND exactly when both inputs are present, nothing is loading
    (and, for exact output, every result is valid) and no quote result
    carries a result. *)
Theorem no_route_found_iff {Currency Route : Type} :
  (forall (amountIn : option (CurrencyAmount Currency)) (currencyOut : option Currency)
          (routes : list Route) routesLoading qs,
      length routes = length qs ->
      state (useBestV3TradeExactIn amountIn currencyOut routes routesLoading qs)
      = NO_ROUTE_FOUND
      <-> is_Some amountIn /\ is_Some currencyOut
          /\ routesLoading = false /\ some loading qs = false
          /\ forall q, q ∈ qs -> result q = None)
  /\
  (forall (currencyIn : option Currency) (amountOut : option (CurrencyAmount Currency))
          (routes : list Route) routesLoading qs,
      length routes = length qs ->
      state (useBestV3TradeExactOut currencyIn amountOut routes routesLoading qs)
      = NO_ROUTE_FOUND
      <-> is_Some amountOut /\ is_Some currencyIn
          /\ some (fun q => negb (valid q)) qs = false
          /\ routesLoading = false /\ some loading qs = false
          /\ forall q, q ∈ qs -> result q = None).
Proof.
  split.
  - intros amountIn currencyOut routes rl qs Hlen. unfold useBestV3TradeExactIn. split.
    + destruct amountIn as [a|], currencyOut as [c|]; simpl; try discriminate.
      destruct rl; simpl; [discriminate|].
      destruct (some loading qs) eqn:Hl; simpl; [discriminate|].
      destruct (ExactIn_best_spec routes qs) as [[_ Hnone]|(j & x & Hj & -> & _)].
      * intros _. repeat split; eauto. apply no_quote_no_result_in. exact Hnone.
      * destruct Hj as (q & r & Hq & _). apply lookup_lt_Some in Hq.
        rewrite <- Hlen in Hq. apply lookup_lt_is_Some_2 in Hq as [rt ->]. simpl.
        destruct (some syncing qs); discriminate.
    + intros ([a ->] & [c ->] & -> & Hl & Hnone). simpl. rewrite Hl.
      rewrite (ExactIn_best_no_result routes qs Hnone). reflexivity.
  - intros currencyIn amountOut routes rl qs Hlen. unfold useBestV3TradeExactOut. split.
    + destruct amountOut as [a|], currencyIn as [c|]; simpl; try discriminate.
      destruct (some (fun q => negb (valid q)) qs) eqn:Hv; simpl; [discriminate|].
      destruct rl; simpl; [discriminate|].
      destruct (some loading qs) eqn:Hl; simpl; [discriminate|].
      destruct (ExactOut_best_spec routes qs) as [[_ Hnone]|(j & x & Hj & -> & _)].
      * intros _. repeat split; eauto. apply no_quote_no_result_out. exact Hnone.
      * destruct Hj as (q & r & Hq & _). apply lookup_lt_Some in Hq.
        rewrite <- Hlen in Hq. apply lookup_lt_is_Some_2 in Hq as [rt ->]. simpl.
        destruct (some syncing qs); discriminate.
    + intros ([a ->] & [c ->] & Hv & -> & Hl & Hnone). simpl. rewrite Hv, Hl.
      rewrite (ExactOut_best_no_result routes qs Hnone). reflexivity.
Qed.

Lemma no_route_found_iff_witness :
  let reverted := mkCallState (R := QuoteExactInputResult) true None false false true in
  state (useBestV3TradeExactIn (Some (fromRawAmount "A"%string 10)) (Some "B"%string)
           ["A-B"%string; "A-C-B"%string] false [reverted; reverted])
  = NO_ROUTE_FOUND
  <-> is_Some (Some (fromRawAmount "A"%string 10)) /\ is_Some (Some "B"%string)
      /\ false = false /\ some loading [reverted; reverted] = false
      /\ forall q, q ∈ [reverted; reverted] -> result q = None.
Proof.
  intros reverted.
  apply (proj1 (@no_route_found_iff string string)). reflexivity.
Defined.

(** X3: either hook answers LOADING exactly when both inputs are present
    (and, for exact output, every result is valid) and route enumeration or
    some quote request is loading. *)
Theorem loading_iff {Currency Route : Type} :
  (forall (amountIn : option (CurrencyAmount Currency)) (currencyOut : option Currency)
          (routes : list Route) routesLoading qs,
      state (useBestV3TradeExactIn amountIn currencyOut routes routesLoading qs) = LOADING
      <-> is_Some amountIn /\ is_Some currencyOut
          /\ routesLoading || some loading qs = true)
  /\
  (forall (currencyIn : option Currency) (amountOut : option (CurrencyAmount Currency))
          (routes : list Route) routesLoading qs,
      state (useBestV3TradeExactOut currencyIn amountOut routes routesLoading qs) = LOADING
      <-> is_Some amountOut /\ is_Some currencyIn
          /\ some (fun q => negb (valid q)) qs = false
          /\ routesLoading || some loading qs = true).
Proof.
  assert (HnS : forall A, ~ is_Some (@None A)) by (intros A [x Hx]; discriminate).
  split.
  - intros amountIn currencyOut routes rl qs. unfold useBestV3TradeExactIn.
    destruct amountIn as [a|], currencyOut as [c|]; simpl;
      try (split; [discriminate | intros (H1 & H2 & _); exfalso; eapply HnS; eauto]).
    destruct (rl || some loading qs); simpl; [split; eauto|].
    destruct (ExactIn.best routes qs) as [[?|] [?|]]; simpl;
      try destruct (some syncing qs);
      (split; [discriminate | intros (_ & _ & H); discriminate H]).
  - intros currencyIn amountOut routes rl qs. unfold useBestV3TradeExactOut.
    destruct amountOut as [a|], currencyIn as [c|]; simpl;
      try (split; [discriminate | intros (H1 & H2 & _); exfalso; eapply HnS; eauto]).
    destruct (some (fun q => negb (valid q)) qs); simpl;
      [split; [discriminate | intros (_ & _ & H & _); discriminate H]|].
    destruct (rl || some loading qs); simpl; [split; eauto|].
    destruct (ExactOut.best routes qs) as [[?|] [?|]]; simpl;
      try destruct (some syncing qs);
      (split; [discriminate | intros (_ & _ & _ & H); discriminate H]).
Qed.

(** ** What the answer depends on *)

Lemma some_map_ext {A : Type} (p : A -> bool) (l l' : list A) :
  map p l = map p l' -> some p l = some p l'.
Proof.
  unfold some. revert l'. induction l as [|x l IH]; intros [|x' l'] E; simpl in *;
    try discriminate; [reflexivity|].
  injection E as -> E. rewrite (IH _ E). reflexivity.
Qed.

Lemma ExactIn_reduce_ext {Route : Type} (routes : list Route) qs :
  forall qs' i acc,
    map result qs = map result qs' ->
    reduce_from (ExactIn.step routes) i acc qs
    = reduce_from (ExactIn.step routes) i acc qs'.
Proof.
  induction qs as [|q qs IH]; intros [|q' qs'] i acc E; simpl in *;
    try discriminate; [reflexivity|].
  injection E as Eq E. unfold ExactIn.step at 2 4. rewrite Eq. apply IH. exact E.
Qed.

Lemma ExactOut_reduce_ext {Route : Type} (routes : list Route) qs :
  forall qs' i acc,
    map result qs = map result qs' ->
    reduce_from (ExactOut.step routes) i acc qs
    = reduce_from (ExactOut.step routes) i acc qs'.
Proof.
  induction qs as [|q qs IH]; intros [|q' qs'] i acc E; simpl in *;
    try discriminate; [reflexivity|].
  injection E as Eq E. unfold ExactOut.step at 2 4. rewrite Eq. apply IH. exact E.
Qed.

(** X4: the answer of the exact-input hook is determined by the results,
    the loading flags and the syncing flags of the batch: it never reads
    the valid or the error flag, and the syncing flags bear on the state
    only, never on the trade.  The exact-output hook reads the valid flags
    as well, and never the error flag. *)
Theorem answer_depends_on {Currency Route : Type} :
  (forall (amountIn : option (CurrencyAmount Currency)) (currencyOut : option Currency)
          (routes : list Route) routesLoading qs qs',
      map result qs = map result qs' ->
      map loading qs = map loading qs' ->
      trade (useBestV3TradeExactIn amountIn currencyOut routes routesLoading qs)
      = trade (useBestV3TradeExactIn amountIn currencyOut routes routesLoading qs')
      /\ (map syncing qs = map syncing qs' ->
          useBestV3TradeExactIn amountIn currencyOut routes routesLoading qs
          = useBestV3TradeExactIn amountIn currencyOut routes routesLoading qs'))
  /\
  (forall (currencyIn : option Currency) (amountOut : option (CurrencyAmount Currency))
          (routes : list Route) routesLoading qs qs',
      map result qs = map result qs' ->
      map loading qs = map loading qs' ->
      map valid qs = map valid qs' ->
      trade (useBestV3TradeExactOut currencyIn amountOut routes routesLoading qs)
      = trade (useBestV3TradeExactOut currencyIn amountOut routes routesLoading qs')
      /\ (map syncing qs = map syncing qs' ->
          useBestV3TradeExactOut currencyIn amountOut routes routesLoading qs
          = useBestV3TradeExactOut currencyIn amountOut routes routesLoading qs')).
Proof.
  split.
  - intros amountIn currencyOut routes rl qs qs' Hr Hl.
    unfold useBestV3TradeExactIn, ExactIn.best, reduce.
    rewrite (some_map_ext loading qs qs' Hl), (ExactIn_reduce_ext routes qs qs' _ _ Hr).
    split.
    + destruct amountIn, currencyOut; try reflexivity.
      destruct (rl || some loading qs'); [reflexivity|].
      destruct (reduce_from _ _ _ qs') as [[?|] [?|]]; reflexivity.
    + intros Hs. rewrite (some_map_ext syncing qs qs' Hs). reflexivity.
  - intros currencyIn amountOut routes rl qs qs' Hr Hl Hv.
    assert (Hv' : some (fun q => negb (valid q)) qs = some (fun q => negb (valid q)) qs').
    { apply some_map_ext. rewrite <- !(map_map valid negb), Hv. reflexivity. }
    unfold useBestV3TradeExactOut, ExactOut.best, reduce.
    rewrite Hv', (some_map_ext loading qs qs' Hl), (ExactOut_reduce_ext routes qs qs' _ _ Hr).
    split.
    + destruct amountOut, currencyIn; try reflexivity.
      destruct (some _ qs'); [reflexivity|].
      destruct (rl || some loading qs'); [reflexivity|].
      destruct (reduce_from _ _ _ qs') as [[?|] [?|]]; reflexivity.
    + intros Hs. rewrite (some_map_ext syncing qs qs' Hs). reflexivity.
Qed.

Lemma answer_depends_on_witness :
  let qs := [mkCallState true (Some (mkQuoteIn 100)) false false false;
             mkCallState true (Some (mkQuoteIn 95)) false true false] in
  let qs' := [mkCallState false (Some (mkQuoteIn 100)) false true true;
              mkCallState false (Some (mkQuoteIn 95)) false false true] in
  trade (useBestV3TradeExactIn (Some (fromRawAmount "A"%string 10)) (Some "B"%string)
           ["A-B"%string; "A-C-B"%string] false qs)
  = trade (useBestV3TradeExactIn (Some (fromRawAmount "A"%string 10)) (Some "B"%string)
             ["A-B"%string; "A-C-B"%string] false qs').
Proof.
  intros qs qs'.
  apply (proj1 (@answer_depends_on string string)); reflexivity.
Defined.

(** ** More candidates *)

Lemma ExactIn_trade_inputs {Currency Route : Type}
    (amountIn : option (CurrencyAmount Currency)) (currencyOut : option Currency)
    (routes : list Route) routesLoading qs t :
  trade (useBestV3TradeExactIn amountIn currencyOut routes routesLoading qs) = Some t ->
  is_Some amountIn /\ is_Some currencyOut
  /\ routesLoading = false /\ some loading qs = false.
Proof.
  unfold useBestV3TradeExactIn.
  destruct amountIn, currencyOut; try discriminate.
  destruct routesLoading; [discriminate|]. simpl.
  destruct (some loading qs); [discriminate|]. eauto.
Qed.

Lemma ExactOut_trade_inputs {Currency Route : Type}
    (currencyIn : option Currency) (amountOut : option (CurrencyAmount Currency))
    (routes : list Route) routesLoading qs t :
  trade (useBestV3TradeExactOut currencyIn amountOut routes routesLoading qs) = Some t ->
  is_Some amountOut /\ is_Some currencyIn
  /\ some (fun q => negb (valid q)) qs = false
  /\ routesLoading = false /\ some loading qs = false.
Proof.
  unfold useBestV3TradeExactOut.
  destruct amountOut, currencyIn; try discriminate.
  destruct (some (fun q => negb (valid q)) qs); [discriminate|].
  destruct routesLoading; [discriminate|]. simpl.
  destruct (some loading qs); [discriminate|]. eauto.
Qed.

Lemma some_app {A : Type} (p : A -> bool) (l l' : list A) :
  some p (l ++ l') = some p l || some p l'.
Proof. unfold some. apply existsb_app. Qed.

(** X5: enumerating further routes never worsens the trade.  If the hook
    returns a trade for aligned routes and results, then for these followed
    by further aligned routes and results, none of them loading (nor, for
    exact output, invalid), it returns a trade again, whose quoted output is
    at least as large (exact input) or whose quoted input is at most as
    large (exact output). *)
Theorem more_routes_never_worse {Currency Route : Type} :
  (forall (amountIn : option (CurrencyAmount Currency)) (currencyOut : option Currency)
          (routes routes' : list Route) routesLoading qs qs' t,
      length routes = length qs ->
      length routes' = length qs' ->
      some loading qs' = false ->
      trade (useBestV3TradeExactIn amountIn currencyOut routes routesLoading qs) = Some t ->
      exists t',
        trade (useBestV3TradeExactIn amountIn currencyOut (routes ++ routes')
                 routesLoading (qs ++ qs')) = Some t'
        /\ quotient (outputAmount t) <= quotient (outputAmount t'))
  /\
  (forall (currencyIn : option Currency) (amountOut : option (CurrencyAmount Currency))
          (routes routes' : list Route) routesLoading qs qs' t,
      length routes = length qs ->
      length routes' = length qs' ->
      some (fun q => negb (valid q)) qs' = false ->
      some loading qs' = false ->
      trade (useBestV3TradeExactOut currencyIn amountOut routes routesLoading qs) = Some t ->
      exists t',
        trade (useBestV3TradeExactOut currencyIn amountOut (routes ++ routes')
                 routesLoading (qs ++ qs')) = Some t'
        /\ quotient (inputAmount t') <= quotient (inputAmount t)).
Proof.
  split.
  - intros amountIn currencyOut routes routes' rl qs qs' t Hlen Hlen' Hl' Ht.
    destruct (ExactIn_trade_inputs _ _ _ _ _ _ Ht) as ([a ->] & [c ->] & -> & Hl).
    destruct (ExactIn_trade_spec _ _ _ _ _ _ Ht) as (j & _ & (q & r & Hq & Hr & Hx) & _).
    assert (Hquoted : quotedOut (qs ++ qs') j (quotient (outputAmount t))).
    { exists q, r. split; [apply lookup_app_l_Some; exact Hq | auto]. }
    destruct (ExactIn_trade_exists a c (routes ++ routes') (qs ++ qs')) as [t' Ht'].
    + rewrite !length_app. lia.
    + eauto.
    + rewrite some_app, Hl, Hl'. reflexivity.
    + exists t'. split; [exact Ht'|].
      destruct (ExactIn_trade_spec _ _ _ _ _ _ Ht') as (_ & _ & _ & Hle & _). eauto.
  - intros currencyIn amountOut routes routes' rl qs qs' t Hlen Hlen' Hv' Hl' Ht.
    destruct (ExactOut_trade_inputs _ _ _ _ _ _ Ht) as ([a ->] & [c ->] & Hv & -> & Hl).
    destruct (ExactOut_trade_spec _ _ _ _ _ _ Ht) as (j & _ & (q & r & Hq & Hr & Hx) & _).
    assert (Hquoted : quotedIn (qs ++ qs') j (quotient (inputAmount t))).
    { exists q, r. split; [apply lookup_app_l_Some; exact Hq | auto]. }
    destruct (ExactOut_trade_exists c a (routes ++ routes') (qs ++ qs')) as [t' Ht'].
    + rewrite !length_app. lia.
    + eauto.
    + rewrite some_app, Hv, Hv'. reflexivity.
    + rewrite some_app, Hl, Hl'. reflexivity.
    + exists t'. split; [exact Ht'|].
      destruct (ExactOut_trade_spec _ _ _ _ _ _ Ht') as (_ & _ & _ & Hle & _). eauto.
Qed.

Lemma more_routes_never_worse_witness :
  let direct := mkCallState true (Some (mkQuoteIn 100)) false false false in
  let bridged := mkCallState true (Some (mkQuoteIn 104)) false false false in
  exists t',
    trade (useBestV3TradeExactIn (Some (fromRawAmount "A"%string 10)) (Some "B"%string)
             (["A-B"%string] ++ ["A-C-B"%string]) false ([direct] ++ [bridged])) = Some t'
    /\ 100 <= quotient (outputAmount t').
Proof.
  intros direct bridged.
  apply (proj1 (@more_routes_never_worse string string)
           (Some (fromRawAmount "A"%string 10)) (Some "B"%string)
           ["A-B"%string] ["A-C-B"%string] false [direct] [bridged]
           (createUncheckedTrade "A-B"%string EXACT_INPUT (fromRawAmount "A"%string 10)
              (fromRawAmount "B"%string 100)));
    reflexivity.
Defined.

(** * Range selection *)

Module SelectRangeFacts.
Import SelectRange.

Lemma truthy_nonempty (s : option string) :
  truthy s = true -> exists x, s = Some x /\ x <> ""%string.
Proof.
  destruct s as [x|]; simpl; [|discriminate].
  destruct (String.eqb_spec x ""); [discriminate|]. eauto.
Qed.

Lemma vaultMatches_sym {A : Type} (toLowerCase : string -> string) a b (v : Vault A) :
  vaultMatches toLowerCase a b v = vaultMatches toLowerCase b a v.
Proof. unfold vaultMatches. apply orb_comm. Qed.

Lemma vaultMatches_empty_l {A : Type} (toLowerCase : string -> string) b (v : Vault A) :
  toLowerCase "" = ""%string ->
  (forall s, toLowerCase s = ""%string -> s = ""%string) ->
  vaultMatches toLowerCase "" b v = false.
Proof.
  intros Hempty Hnonempty. unfold vaultMatches. rewrite Hempty.
  destruct (truthy (token0 v)) eqn:H0; simpl; [|reflexivity].
  destruct (truthy (token1 v)) eqn:H1; simpl; [|reflexivity].
  apply truthy_nonempty in H0 as (x & E0 & Hx).
  apply truthy_nonempty in H1 as (y & E1 & Hy).
  rewrite E0, E1. simpl.
  destruct (String.eqb_spec (toLowerCase x) "") as [E|_];
    [destruct (Hx (Hnonempty _ E))|].
  destruct (String.eqb_spec (toLowerCase y) "") as [E|_];
    [destruct (Hy (Hnonempty _ E))|].
  simpl. apply andb_false_r.
Qed.

(** [String.ltb] is a strict order compatible with [String.leb]. *)
Lemma string_ltb_leb_chain (a b c : string) :
  String.ltb a b = true -> String.ltb b c = true -> String.leb c a = false.
Proof.
  unfold String.ltb, String.leb. intros Hab Hbc.
  assert (Hab' : String.compare a b = Lt) by (destruct (String.compare a b); congruence).
  assert (Hbc' : String.compare b c = Lt) by (destruct (String.compare b c); congruence).
  apply String_as_OT.cmp_lt in Hab', Hbc'.
  pose proof (String_as_OT.lt_trans _ _ _ Hab' Hbc') as Hac.
  apply String_as_OT.cmp_lt in Hac. unfold String_as_OT.cmp in Hac.
  rewrite String.compare_antisym, Hac. reflexivity.
Qed.

End SelectRangeFacts.

(** X6: the unipilot vaults selected for a currency pair do not depend on
    the order of the two currencies, and when either currency is missing no
    vault is selected (lower-casing keeps the empty string empty and every
    other string non-empty). *)
Theorem vaults_for_pair_symmetric {A : Type} (toLowerCase : string -> string) :
  (forall (vaults : list (SelectRange.Vault A)) currencyA currencyB,
      SelectRange.unipilotVaultsForPair toLowerCase vaults currencyA currencyB
      = SelectRange.unipilotVaultsForPair toLowerCase vaults currencyB currencyA)
  /\
  (toLowerCase "" = ""%string ->
   (forall s, toLowerCase s = ""%string -> s = ""%string) ->
   forall (vaults : list (SelectRange.Vault A)) currencyA currencyB,
     currencyA = None \/ currencyB = None ->
     SelectRange.unipilotVaultsForPair toLowerCase vaults currencyA currencyB = []).
Proof.
  split.
  - intros vaults a b. unfold SelectRange.unipilotVaultsForPair.
    apply filter_ext. intros v. apply SelectRangeFacts.vaultMatches_sym.
  - intros Hempty Hnonempty vaults a b Hmissing.
    unfold SelectRange.unipilotVaultsForPair.
    induction vaults as [|v vaults IH]; [reflexivity|]. simpl.
    assert (Hv : SelectRange.vaultMatches toLowerCase
                   (SelectRange.currencyAddress toLowerCase a)
                   (SelectRange.currencyAddress toLowerCase b) v = false).
    { destruct Hmissing as [-> | ->]; simpl.
      - apply SelectRangeFacts.vaultMatches_empty_l; assumption.
      - rewrite SelectRangeFacts.vaultMatches_sym.
        apply SelectRangeFacts.vaultMatches_empty_l; assumption. }
    rewrite Hv. exact IH.
Qed.

Lemma asciiLower_empty_iff (s : string) :
  SelectRange.asciiLower s = ""%string -> s = ""%string.
Proof. destruct s; [reflexivity | discriminate]. Qed.

Lemma vaults_for_pair_symmetric_witness :
  let vault := SelectRange.mkVault (Some "0xAB"%string) (Some "0xcd"%string) tt in
  SelectRange.unipilotVaultsForPair SelectRange.asciiLower [vault] None (Some "0xCD"%string)
  = []
  /\ SelectRange.unipilotVaultsForPair SelectRange.asciiLower [vault]
       (Some "0xCD"%string) (Some "0xab"%string) = [vault].
Proof.
  intros vault. split; [|reflexivity].
  apply (proj2 (@vaults_for_pair_symmetric unit SelectRange.asciiLower)).
  - reflexivity.
  - exact asciiLower_empty_iff.
  - left. reflexivity.
Defined.

(** X7: the range type the effect switches to is always one of the buttons
    on offer: either the button group is not rendered and the type is
    manual, or the group holds at least two distinct buttons, ends with the
    manual one and contains the type chosen. *)
Theorem effect_range_type_offered {A G : Type}
    (gammaPair : option G) (vaults : list (SelectRange.Vault A)) :
  let chosen := SelectRange.effectRangeType gammaPair vaults in
  let buttons := SelectRange.rangeTypeButtons gammaPair vaults in
  (buttons = [] /\ chosen = SelectRange.MANUAL_RANGE
   /\ gammaPair = None /\ vaults = [])
  \/
  (In chosen buttons /\ (2 <= length buttons)%nat /\ NoDup buttons
   /\ last buttons = Some SelectRange.MANUAL_RANGE
   /\ hd_error buttons = Some chosen).
Proof.
  unfold SelectRange.effectRangeType, SelectRange.rangeTypeButtons.
  destruct gammaPair as [g|], vaults as [|v vaults]; simpl;
    [right | right | left; auto | right];
    (split; [simpl; auto|]; split; [simpl; lia|]; split; [|split; reflexivity]);
    repeat (apply NoDup_cons_2 || apply NoDup_nil_2);
    rewrite ?elem_of_cons, ?elem_of_nil; intuition discriminate.
Qed.

(** X8: for positive bound prices with the lower at most the upper, the
    left price shown is at most the right price shown in either token order:
    when the pair is not sorted the two bounds are inverted and exchanged. *)
Theorem left_price_at_most_right_price {Currency Token : Type}
    (sortsBefore : Token -> Token -> bool)
    (tokenA tokenB : option Token) (priceLower priceUpper : SelectRange.Price Currency) :
  SelectRange.positive priceLower ->
  SelectRange.positive priceUpper ->
  SelectRange.price_le priceLower priceUpper ->
  let sorted := SelectRange.isSorted sortsBefore tokenA tokenB in
  exists l r,
    SelectRange.leftPrice sorted (Some priceLower) (Some priceUpper) = Some l
    /\ SelectRange.rightPrice sorted (Some priceLower) (Some priceUpper) = Some r
    /\ SelectRange.positive l /\ SelectRange.positive r
    /\ SelectRange.price_le l r
    /\ (sorted = false ->
        l = SelectRange.invert priceUpper /\ r = SelectRange.invert priceLower).
Proof.
  intros [Hn1 Hd1] [Hn2 Hd2] Hle sorted.
  unfold SelectRange.leftPrice, SelectRange.rightPrice.
  destruct sorted; simpl; eexists; eexists; repeat split; try discriminate;
    unfold SelectRange.price_le, SelectRange.invert in *; simpl; try assumption; lia.
Qed.

Lemma left_price_at_most_right_price_witness :
  let lower := SelectRange.mkPrice "USDC"%string "WETH"%string 1 2000 in
  let upper := SelectRange.mkPrice "USDC"%string "WETH"%string 1 1500 in
  exists l r,
    SelectRange.leftPrice false (Some lower) (Some upper) = Some l
    /\ SelectRange.rightPrice false (Some lower) (Some upper) = Some r
    /\ SelectRange.positive l /\ SelectRange.positive r
    /\ SelectRange.price_le l r
    /\ (false = false ->
        l = SelectRange.invert upper /\ r = SelectRange.invert lower).
Proof.
  intros lower upper.
  apply (@left_price_at_most_right_price string string (fun _ _ => false)
           (Some "WETH"%string) (Some "USDC"%string) lower upper);
    unfold SelectRange.positive, SelectRange.price_le; simpl; lia.
Defined.

(** X9: the before-price and after-price markers are raised only for an
    out-of-range position with a non-empty price, and never both at once
    when the left price text does not follow the right price text in the
    lexicographic order the comparison uses. *)
Theorem before_after_exclusive {Currency : Type}
    (toSignificant5 : SelectRange.Price Currency -> string)
    (price : option string) (leftPrice rightPrice : option (SelectRange.Price Currency))
    (outOfRange : bool) :
  (SelectRange.isBeforePrice toSignificant5 price leftPrice rightPrice outOfRange = true
   \/ SelectRange.isAfterPrice toSignificant5 price leftPrice rightPrice outOfRange = true ->
   outOfRange = true /\ SelectRange.truthy price = true
   /\ is_Some leftPrice /\ is_Some rightPrice)
  /\
  ((forall l r, leftPrice = Some l -> rightPrice = Some r ->
      String.leb (toSignificant5 l) (toSignificant5 r) = true) ->
   ~ (SelectRange.isBeforePrice toSignificant5 price leftPrice rightPrice outOfRange = true
      /\ SelectRange.isAfterPrice toSignificant5 price leftPrice rightPrice outOfRange = true)).
Proof.
  unfold SelectRange.isBeforePrice, SelectRange.isAfterPrice, SelectRange.truthy.
  destruct price as [p|], leftPrice as [l|], rightPrice as [r|];
    try (split; [intros [H | H]; discriminate H | intros _ [H _]; discriminate H]).
  destruct (String.eqb p ""); simpl;
    [split; [intros [H | H]; discriminate H | intros _ [H _]; discriminate H]|].
  destruct outOfRange; simpl;
    [|split; [intros [H | H]; discriminate H | intros _ [H _]; discriminate H]].
  split; [intros _; eauto|].
  intros Hle [Hb Ha].
  specialize (Hle l r eq_refl eq_refl).
  rewrite (SelectRangeFacts.string_ltb_leb_chain _ _ _ Hb Ha) in Hle.
  discriminate Hle.
Qed.

Lemma before_after_exclusive_witness :
  let toS := fun p : SelectRange.Price string =>
               if SelectRange.numerator p =? 1 then "1.5"%string else "2.5"%string in
  let l := SelectRange.mkPrice "A"%string "B"%string 1 1 in
  let r := SelectRange.mkPrice "A"%string "B"%string 2 1 in
  SelectRange.isBeforePrice toS (Some "3.1"%string) (Some l) (Some r) true = true
  /\ SelectRange.isAfterPrice toS (Some "3.1"%string) (Some l) (Some r) true = false.
Proof.
  intros toS l r. split; [reflexivity|].
  destruct (SelectRange.isAfterPrice toS (Some "3.1"%string) (Some l) (Some r) true) eqn:E;
    [|reflexivity].
  exfalso.
  apply (proj2 (@before_after_exclusive string toS (Some "3.1"%string) (Some l) (Some r) true)).
  - intros l' r' [= <-] [= <-]. reflexivity.
  - split; [reflexivity | exact E].
Defined.

(** * The tabs of the user's pools *)

(** X10: the tab list always starts with the Quickswap tab carrying the
    Quickswap position count and holds at most two further tabs, each shown
    with a positive count (a zero count is never displayed beside Unipilot
    or Gamma); when the three tab ids are distinct, no id occurs twice and
    at most one tab is styled as active. *)
Theorem pool_tabs_invariant {P : Type} (quickswap unipilot gamma : string)
    (poolFilter : string) (quickPoolsCount : Z)
    (unipilotPositions : option (list P)) (gammaPoolsCount : Z) :
  let tabs := MyLiquidityPoolsV3.myPoolsFilter quickswap unipilot gamma poolFilter
                quickPoolsCount unipilotPositions gammaPoolsCount in
  (exists rest,
      tabs = MyLiquidityPoolsV3.mkTab quickswap "Quickswap" quickPoolsCount
               (String.eqb poolFilter quickswap) :: rest
      /\ (length rest <= 2)%nat
      /\ forall tab, In tab rest -> 0 < MyLiquidityPoolsV3.tabCount tab)
  /\
  (quickswap <> unipilot -> quickswap <> gamma -> unipilot <> gamma ->
   List.NoDup (map MyLiquidityPoolsV3.tabId tabs)
   /\ (length (List.filter MyLiquidityPoolsV3.tabActive tabs) <= 1)%nat).
Proof.
  unfold MyLiquidityPoolsV3.myPoolsFilter.
  destruct unipilotPositions as [[|p ps]|]; destruct (Z.ltb_spec 0 gammaPoolsCount);
    simpl; (split; [eexists; split; [reflexivity|]; split; [simpl; lia|];
                    simpl; intros tab Htab;
                    repeat (destruct Htab as [<- | Htab]; [simpl; lia|]);
                    destruct Htab
                  |]);
    intros Hqu Hqg Hug;
    (split; [repeat constructor; simpl; intuition congruence|]);
    destruct (String.eqb_spec poolFilter quickswap);
    try destruct (String.eqb_spec poolFilter unipilot);
    try destruct (String.eqb_spec poolFilter gamma);
    simpl; try lia; congruence.
Qed.

Lemma pool_tabs_invariant_witness :
  let tabs := MyLiquidityPoolsV3.myPoolsFilter "0" "1" "2" "2" 4 (Some [tt; tt]) 3 in
  List.NoDup (map MyLiquidityPoolsV3.tabId tabs)
  /\ (length (List.filter MyLiquidityPoolsV3.tabActive tabs) <= 1)%nat.
Proof.
  intros tabs.
  apply (proj2 (@pool_tabs_invariant unit "0" "1" "2" "2" 4 (Some [tt; tt]) 3));
    discriminate.
Defined.
